(** * Hook event dispatch engine of claude-tools: a shallow embedding

    Sources embedded here:
    - [src/lib/schemas/hooks.ts]: the zod payload and response schemas;
    - [src/lib/schemas/permissions.ts]: the permission descriptor;
    - [src/unnamed/part_002]: [HooksManager] ([constructor], [use],
      [executeHooks]) and the [hooks] constructor;
    - [src/examples/example-hooks.ts]: the verdict chosen by [main];
    - [src/unnamed/part_001]: the Deno flags built by [runHooksFile]. *)

From Stdlib Require Import String List Bool ZArith.
Import ListNotations.
Open Scope string_scope.
Set Warnings "-register-all".

(** ** JavaScript values *)

(** A JavaScript value as seen by zod and by the handlers.  Numbers are
    abstracted to integers; objects are association lists whose lookup
    returns the first binding. *)
Inductive json : Type :=
| JUndef
| JNull
| JBool (b : bool)
| JNum (z : Z)
| JStr (s : string)
| JArr (l : list json)
| JObj (fields : list (string * json)).

(** [obj[k]] *)
Fixpoint lookup (k : string) (kvs : list (string * json)) : option json :=
  match kvs with
  | [] => None
  | (k', v) :: rest => if String.eqb k k' then Some v else lookup k rest
  end.

(** JavaScript truthiness ([if (result)]). *)
Definition truthy (v : json) : bool :=
  match v with
  | JUndef | JNull => false
  | JBool b => b
  | JNum z => negb (Z.eqb z 0)
  | JStr s => negb (String.eqb s "")
  | JArr _ | JObj _ => true
  end.

(** Result of a computation that may throw: [ROk] or an exception with its
    [message]. *)
Inductive res (A : Type) : Type :=
| ROk (a : A)
| RErr (msg : string).
Arguments ROk {A} a.
Arguments RErr {A} msg.

(** ** zod schemas *)

(** The zod combinators used by [hooks.ts]: [z.string()], [z.number()],
    [z.enum([...])], [z.unknown()], [z.record(z.unknown())], [.optional()]
    and [z.object({...})] (default "strip" mode). *)
Inductive schema : Type :=
| SString
| SNumber
| SEnum (allowed : list string)
| SUnknown
| SRecord
| SOptional (s : schema)
| SObject (shape : list (string * schema)).

(** The parse of the keys of a [z.object] shape, given the parser of the
    field schemas: a key present in the input is always set in the output
    (zod's [alwaysSet]); a missing key is parsed as [undefined] and is kept
    only when its parse is not [undefined].  Unknown keys are stripped.
    The text of zod's error message is abstracted to a short string. *)
Fixpoint parse_shape (p : schema -> json -> res json)
    (shape : list (string * schema)) (kvs : list (string * json))
    : res (list (string * json)) :=
  match shape with
  | [] => ROk []
  | (k, s) :: rest =>
      match lookup k kvs with
      | Some x =>
          match p s x with
          | ROk y =>
              match parse_shape p rest kvs with
              | ROk ys => ROk ((k, y) :: ys)
              | RErr e => RErr e
              end
          | RErr e => RErr e
          end
      | None =>
          match p s JUndef with
          | ROk y =>
              match parse_shape p rest kvs with
              | ROk ys =>
                  match y with
                  | JUndef => ROk ys
                  | _ => ROk ((k, y) :: ys)
                  end
              | RErr e => RErr e
              end
          | RErr _ => RErr ("Required: " ++ k)
          end
      end
  end.

(** [schema.parse(v)] *)
Fixpoint parse (s : schema) (v : json) {struct s} : res json :=
  match s with
  | SString => match v with JStr _ => ROk v | _ => RErr "Expected string" end
  | SNumber => match v with JNum _ => ROk v | _ => RErr "Expected number" end
  | SEnum allowed =>
      match v with
      | JStr x =>
          if existsb (String.eqb x) allowed then ROk v
          else RErr "Invalid enum value"
      | _ => RErr "Expected string"
      end
  | SUnknown => ROk v
  | SRecord => match v with JObj _ => ROk v | _ => RErr "Expected object" end
  | SOptional s' => match v with JUndef => ROk JUndef | _ => parse s' v end
  | SObject shape =>
      match v with
      | JObj kvs =>
          match parse_shape parse shape kvs with
          | ROk out => ROk (JObj out)
          | RErr e => RErr e
          end
      | _ => RErr "Expected object"
      end
  end.

(** [ContextSchema] *)
Definition ContextSchema : schema :=
  SObject [("session_id", SString);
           ("user_id", SOptional SString);
           ("working_directory", SString)].

Definition reason_enum : schema := SEnum ["completed"; "error"; "interrupted"].

Definition PreToolUsePayloadSchema : schema :=
  SObject [("tool_name", SString); ("tool_input", SRecord);
           ("context", ContextSchema)].

Definition PostToolUsePayloadSchema : schema :=
  SObject [("tool_name", SString); ("tool_input", SRecord);
           ("tool_output", SUnknown); ("context", ContextSchema)].

Definition NotificationPayloadSchema : schema :=
  SObject [("type", SEnum ["permission_request"; "idle"; "error"]);
           ("message", SString); ("context", ContextSchema)].

Definition UserPromptSubmitPayloadSchema : schema :=
  SObject [("prompt", SString); ("context", ContextSchema)].

Definition StopPayloadSchema : schema :=
  SObject [("reason", reason_enum); ("context", ContextSchema)].

Definition SubagentStopPayloadSchema : schema :=
  SObject [("subagent_type", SString); ("reason", reason_enum);
           ("context", ContextSchema)].

Definition PreCompactPayloadSchema : schema :=
  SObject [("context_size", SNumber); ("context", ContextSchema)].

Definition SessionStartPayloadSchema : schema :=
  SObject [("context", ContextSchema)].

(** [HookResponseSchema] *)
Definition HookResponseSchema : schema :=
  SObject [("action", SEnum ["continue"; "block"; "modify"]);
           ("message", SOptional SString);
           ("modified_input", SOptional SRecord);
           ("context", SOptional SRecord)].

(** A schema is well formed when the keys of every [z.object] shape are
    distinct, as they are in a JavaScript object literal. *)
Inductive schema_wf : schema -> Prop :=
| wf_string : schema_wf SString
| wf_number : schema_wf SNumber
| wf_enum l : schema_wf (SEnum l)
| wf_unknown : schema_wf SUnknown
| wf_record : schema_wf SRecord
| wf_optional s : schema_wf s -> schema_wf (SOptional s)
| wf_object shape :
    NoDup (map fst shape) ->
    Forall (fun ks => schema_wf (snd ks)) shape ->
    schema_wf (SObject shape).

(** ** Plugins *)

(** What a call to a user callback does: it returns a value or throws an
    error whose [message] is given.  A returned promise is identified with
    the value it resolves to ([await]). *)
Inductive outcome (A : Type) : Type :=
| Ok (a : A)
| Throw (msg : string).
Arguments Ok {A} a.
Arguments Throw {A} msg.

(** An event handler [(payload) => HookResponse | Promise<HookResponse>];
    at run time it may return any value. *)
Definition handler : Type := json -> outcome json.

(** [Permissions]: each capability is a list of scopes or a boolean under
    [allow], and a list of scopes under [deny]. *)
Inductive perm_value : Type :=
| PList (scopes : list string)
| PBool (b : bool).

Record allow_section : Type := {
  allow_read : option perm_value;
  allow_write : option perm_value;
  allow_net : option perm_value;
  allow_env : option perm_value;
  allow_run : option perm_value;
  allow_sys : option perm_value
}.

Record deny_section : Type := {
  deny_read : option (list string);
  deny_write : option (list string);
  deny_net : option (list string);
  deny_env : option (list string);
  deny_run : option (list string);
  deny_sys : option (list string)
}.

Record Permissions : Type := {
  allow : option allow_section;
  deny : option deny_section
}.

(** [interface HooksPlugin] *)
Record HooksPlugin : Type := {
  name : string;
  version : option string;
  description : option string;
  onPreToolUse : option handler;
  onPostToolUse : option handler;
  onNotification : option handler;
  onUserPromptSubmit : option handler;
  onStop : option handler;
  onSubagentStop : option handler;
  onPreCompact : option handler;
  onSessionStart : option handler;
  onLoad : option (outcome unit);
  onUnload : option (outcome unit)
}.

(** The handler selected by the second [switch (eventType)] of
    [executeHooks]; an event name outside the eight cases selects none. *)
Definition handler_for (eventType : string) (plugin : HooksPlugin)
    : option handler :=
  if String.eqb eventType "PreToolUse" then onPreToolUse plugin
  else if String.eqb eventType "PostToolUse" then onPostToolUse plugin
  else if String.eqb eventType "Notification" then onNotification plugin
  else if String.eqb eventType "UserPromptSubmit" then onUserPromptSubmit plugin
  else if String.eqb eventType "Stop" then onStop plugin
  else if String.eqb eventType "SubagentStop" then onSubagentStop plugin
  else if String.eqb eventType "PreCompact" then onPreCompact plugin
  else if String.eqb eventType "SessionStart" then onSessionStart plugin
  else None.

(** The schema selected by the first [switch (eventType)] of
    [executeHooks]; [None] is the [default] case. *)
Definition payload_schema (eventType : string) : option schema :=
  if String.eqb eventType "PreToolUse" then Some PreToolUsePayloadSchema
  else if String.eqb eventType "PostToolUse" then Some PostToolUsePayloadSchema
  else if String.eqb eventType "Notification" then Some NotificationPayloadSchema
  else if String.eqb eventType "UserPromptSubmit" then Some UserPromptSubmitPayloadSchema
  else if String.eqb eventType "Stop" then Some StopPayloadSchema
  else if String.eqb eventType "SubagentStop" then Some SubagentStopPayloadSchema
  else if String.eqb eventType "PreCompact" then Some PreCompactPayloadSchema
  else if String.eqb eventType "SessionStart" then Some SessionStartPayloadSchema
  else None.

(** The [try] block of the validation step: parse with the event's schema,
    or [throw new Error(`Unknown event type: ${eventType}`)]. *)
Definition validate_payload (eventType : string) (payload : json) : res json :=
  match payload_schema eventType with
  | Some s => parse s payload
  | None => RErr ("Unknown event type: " ++ eventType)
  end.

(** ** Dispatch *)

(** What the engine observably does to the plugins: call [onLoad] and call
    an event handler on a payload. *)
Inductive call : Type :=
| CLoad (plugin_name : string)
| CInvoke (plugin_name : string) (eventType : string) (payload : json).

(** The object literal [{ action: "continue", message: m }]. *)
Definition continue_with (m : string) : json :=
  JObj [("action", JStr "continue"); ("message", JStr m)].

(** [r.action === "block"] *)
Definition is_block (r : json) : bool :=
  match r with
  | JObj kvs =>
      match lookup "action" kvs with
      | Some (JStr a) => String.eqb a "block"
      | _ => false
      end
  | _ => false
  end.

(** One iteration of [for (const plugin of this.plugins)]: the calls made,
    the response pushed (if any), and whether the loop [break]s. *)
Definition run_plugin (eventType : string) (validatedPayload : json)
    (plugin : HooksPlugin) : list call * option json * bool :=
  let loaded := match onLoad plugin with
                | Some _ => [CLoad (name plugin)]
                | None => []
                end in
  match onLoad plugin with
  | Some (Throw e) => (loaded, Some (continue_with ("Plugin error: " ++ e)), false)
  | _ =>
      match handler_for eventType plugin with
      | None => (loaded, None, false)
      | Some h =>
          let calls := (loaded ++ [CInvoke (name plugin) eventType validatedPayload])%list in
          match h validatedPayload with
          | Throw e => (calls, Some (continue_with ("Plugin error: " ++ e)), false)
          | Ok result =>
              if truthy result then
                match parse HookResponseSchema result with
                | ROk validatedResult =>
                    (calls, Some validatedResult, is_block validatedResult)
                | RErr e =>
                    (calls,
                     Some (continue_with ("Plugin returned invalid response: " ++ e)),
                     false)
                end
              else (calls, None, false)
          end
      end
  end.

Definition option_to_list {A} (o : option A) : list A :=
  match o with Some a => [a] | None => [] end.

(** The loop, with [results] and the calls made so far as accumulators. *)
Fixpoint for_plugins (eventType : string) (validatedPayload : json)
    (plugins : list HooksPlugin) (results : list json) (calls : list call)
    : list json * list call :=
  match plugins with
  | [] => (results, calls)
  | plugin :: rest =>
      let '(cs, r, stop) := run_plugin eventType validatedPayload plugin in
      let results' := (results ++ option_to_list r)%list in
      if stop then (results', (calls ++ cs)%list)
      else for_plugins eventType validatedPayload rest results' (calls ++ cs)%list
  end.

(** [HooksManager.executeHooks(eventType, payload)]: the returned
    [HookResponse[]] together with the calls made on the plugins. *)
Definition executeHooks (eventType : string) (payload : json)
    (plugins : list HooksPlugin) : list json * list call :=
  match validate_payload eventType payload with
  | RErr e => ([continue_with ("Invalid payload: " ++ e)], [])
  | ROk validatedPayload => for_plugins eventType validatedPayload plugins [] []
  end.

(** ** The verdict of [main] in [example-hooks.ts] *)

Fixpoint find_block (results : list json) : option json :=
  match results with
  | [] => None
  | r :: rest => if is_block r then Some r else find_block rest
  end.

Fixpoint last_result (results : list json) : option json :=
  match results with
  | [] => None
  | [r] => Some r
  | _ :: rest => last_result rest
  end.

(** [blockingResult || results[results.length - 1] || { action: "continue" }] *)
Definition finalResult (results : list json) : json :=
  match find_block results with
  | Some b => b
  | None =>
      match last_result results with
      | Some r => r
      | None => JObj [("action", JStr "continue")]
      end
  end.

(** ** The manager and the [hooks] constructor *)

(** [class HooksManager]: its private fields. *)
Record HooksManager : Type := {
  plugins : list HooksPlugin;
  permissions : option Permissions
}.

(** The argument [config?: { plugins?: HooksPlugin[]; permissions?: Permissions }]. *)
Record ManagerConfig : Type := {
  config_plugins : option (list HooksPlugin);
  config_permissions : option Permissions
}.

(** [new HooksManager(config)]: [this.plugins = config?.plugins || []]
    (an array is truthy, so a given array is kept as it is). *)
Definition new_HooksManager (config : option ManagerConfig) : HooksManager :=
  {| plugins := match config with
                | Some c => match config_plugins c with
                            | Some ps => ps
                            | None => []
                            end
                | None => []
                end;
     permissions := match config with
                    | Some c => config_permissions c
                    | None => None
                    end |}.

(** [use(plugin)]: [this.plugins.push(plugin); return this]. *)
Definition use (m : HooksManager) (plugin : HooksPlugin) : HooksManager :=
  {| plugins := (plugins m ++ [plugin])%list; permissions := permissions m |}.

(** [manager.executeHooks(eventType, payload)] *)
Definition manager_executeHooks (m : HooksManager) (eventType : string)
    (payload : json) : list json * list call :=
  executeHooks eventType payload (plugins m).

(** [interface HooksConfig] *)
Record HooksConfig : Type := {
  hc_permissions : option Permissions;
  hc_plugins : option (list HooksPlugin);
  hc_onPreToolUse : option handler;
  hc_onPostToolUse : option handler;
  hc_onNotification : option handler;
  hc_onUserPromptSubmit : option handler;
  hc_onStop : option handler;
  hc_onSubagentStop : option handler;
  hc_onPreCompact : option handler;
  hc_onSessionStart : option handler
}.

(** [{ name: "inline-hooks", version: "0.0.0", ...config }] where [config]
    is the [HooksConfig] without [plugins] and [permissions]. *)
Definition inline_plugin (c : HooksConfig) : HooksPlugin :=
  {| name := "inline-hooks";
     version := Some "0.0.0";
     description := None;
     onPreToolUse := hc_onPreToolUse c;
     onPostToolUse := hc_onPostToolUse c;
     onNotification := hc_onNotification c;
     onUserPromptSubmit := hc_onUserPromptSubmit c;
     onStop := hc_onStop c;
     onSubagentStop := hc_onSubagentStop c;
     onPreCompact := hc_onPreCompact c;
     onSessionStart := hc_onSessionStart c;
     onLoad := None;
     onUnload := None |}.

(** [hooks({ plugins, permissions, ...config })] *)
Definition hooks (c : HooksConfig) : HooksManager :=
  new_HooksManager
    (Some {| config_permissions := hc_permissions c;
             config_plugins :=
               Some (inline_plugin c :: match hc_plugins c with
                                        | Some ps => ps
                                        | None => []
                                        end) |}).

(** ** Permission flags built by [runHooksFile] *)

(** One of the six [if (permissions.allow.<cap>)] blocks: an array (always
    truthy) gives [--allow-<cap>=<scope>] per entry, [true] gives
    [--allow-<cap>], [false] or an absent key gives nothing. *)
Definition capability_flags (cap : string) (v : option perm_value)
    : list string :=
  match v with
  | Some (PList scopes) => map (fun scope => "--allow-" ++ cap ++ "=" ++ scope) scopes
  | Some (PBool true) => ["--allow-" ++ cap]
  | Some (PBool false) | None => []
  end.

(** The flags pushed after ["run"]; [deny] is not read. *)
Definition permission_flags (permissions : Permissions) : list string :=
  match allow permissions with
  | Some a =>
      (capability_flags "read" (allow_read a)
       ++ capability_flags "write" (allow_write a)
       ++ capability_flags "net" (allow_net a)
       ++ capability_flags "env" (allow_env a)
       ++ capability_flags "run" (allow_run a)
       ++ capability_flags "sys" (allow_sys a))%list
  | None => []
  end.

(** The [deno] argument vector of [runHooksFile(file, event, payload)],
    with [hooksPlugin.permissions || {}]. *)
Definition deno_args (hooksPermissions : option Permissions)
    (runnerPath file event : string) (payload : option string) : list string :=
  let perms := match hooksPermissions with
               | Some p => p
               | None => {| allow := None; deny := None |}
               end in
  ("run" :: permission_flags perms ++ [runnerPath; file; event]
   ++ match payload with
      | Some p => if String.eqb p "" then [] else [p]
      | None => []
      end)%list.

(** *** The resolution described by the specification (section 4.2)

    A second, spec-side rendering of [resolve(descriptor)], to compare with
    [permission_flags]: sandbox flags are scoped grants, unscoped grants and
    negative scoped flags, rendered as Deno flags. *)
Inductive sandbox_flag : Type :=
| Scoped (cap scope : string)
| AllowAll (cap : string)
| DenyScoped (cap scope : string).

Definition render_flag (f : sandbox_flag) : string :=
  match f with
  | Scoped cap scope => "--allow-" ++ cap ++ "=" ++ scope
  | AllowAll cap => "--allow-" ++ cap
  | DenyScoped cap scope => "--deny-" ++ cap ++ "=" ++ scope
  end.

(** Per capability: a list emits one scoped flag per resource in order,
    [true] one unscoped flag, absence or [false] nothing. *)
Definition spec_allow_flags (cap : string) (v : option perm_value)
    : list sandbox_flag :=
  match v with
  | Some (PList scopes) => map (Scoped cap) scopes
  | Some (PBool true) => [AllowAll cap]
  | _ => []
  end.

Definition spec_deny_flags (cap : string) (v : option (list string))
    : list sandbox_flag :=
  match v with
  | Some scopes => map (DenyScoped cap) scopes
  | None => []
  end.

(** The allow part of the specified resolution, in the order read, write,
    net, env, run, sys. *)
Definition spec_resolve_allow (d : Permissions) : list sandbox_flag :=
  match allow d with
  | Some a =>
      (spec_allow_flags "read" (allow_read a)
       ++ spec_allow_flags "write" (allow_write a)
       ++ spec_allow_flags "net" (allow_net a)
       ++ spec_allow_flags "env" (allow_env a)
       ++ spec_allow_flags "run" (allow_run a)
       ++ spec_allow_flags "sys" (allow_sys a))%list
  | None => []
  end.

(** ** Handler binding removal, for comparison with an unbound plugin *)

(** [plugin] with the handler of [eventType] removed. *)
Definition unbind_handler (eventType : string) (plugin : HooksPlugin) : HooksPlugin :=
  {| name := name plugin;
     version := version plugin;
     description := description plugin;
     onPreToolUse :=
       if String.eqb eventType "PreToolUse" then None else onPreToolUse plugin;
     onPostToolUse :=
       if String.eqb eventType "PostToolUse" then None else onPostToolUse plugin;
     onNotification :=
       if String.eqb eventType "Notification" then None else onNotification plugin;
     onUserPromptSubmit :=
       if String.eqb eventType "UserPromptSubmit" then None
       else onUserPromptSubmit plugin;
     onStop := if String.eqb eventType "Stop" then None else onStop plugin;
     onSubagentStop :=
       if String.eqb eventType "SubagentStop" then None else onSubagentStop plugin;
     onPreCompact :=
       if String.eqb eventType "PreCompact" then None else onPreCompact plugin;
     onSessionStart :=
       if String.eqb eventType "SessionStart" then None else onSessionStart plugin;
     onLoad := onLoad plugin;
     onUnload := onUnload plugin |}.

(** The handler of a [HooksConfig] for an event, by the same [switch]. *)
Definition config_handler_for (eventType : string) (c : HooksConfig)
    : option handler :=
  if String.eqb eventType "PreToolUse" then hc_onPreToolUse c
  else if String.eqb eventType "PostToolUse" then hc_onPostToolUse c
  else if String.eqb eventType "Notification" then hc_onNotification c
  else if String.eqb eventType "UserPromptSubmit" then hc_onUserPromptSubmit c
  else if String.eqb eventType "Stop" then hc_onStop c
  else if String.eqb eventType "SubagentStop" then hc_onSubagentStop c
  else if String.eqb eventType "PreCompact" then hc_onPreCompact c
  else if String.eqb eventType "SessionStart" then hc_onSessionStart c
  else None.

(** ** Sample inputs *)

(** A plugin with the given name and [onPreToolUse] handler only. *)
Definition pre_tool_use_plugin (n : string) (h : option handler) : HooksPlugin :=
  {| name := n; version := None; description := None;
     onPreToolUse := h; onPostToolUse := None; onNotification := None;
     onUserPromptSubmit := None; onStop := None; onSubagentStop := None;
     onPreCompact := None; onSessionStart := None;
     onLoad := None; onUnload := None |}.

Definition sample_context : json :=
  JObj [("session_id", JStr "s1"); ("working_directory", JStr "/tmp")].

(** [{tool_name:"Write", tool_input:{}, context:{session_id:"s1", working_directory:"/tmp"}}] *)
Definition sample_pre_tool_use : json :=
  JObj [("tool_name", JStr "Write"); ("tool_input", JObj []);
        ("context", sample_context)].

(** The same payload without its required [tool_name]. *)
Definition sample_missing_tool_name : json :=
  JObj [("tool_input", JObj []); ("context", sample_context)].

Definition sample_block : json :=
  JObj [("action", JStr "block"); ("message", JStr "nope")].

Definition sample_continue : json :=
  JObj [("action", JStr "continue"); ("message", JStr "ok")].

Definition blocking_plugin : HooksPlugin :=
  pre_tool_use_plugin "A" (Some (fun _ => Ok sample_block)).

Definition continuing_plugin : HooksPlugin :=
  pre_tool_use_plugin "B" (Some (fun _ => Ok sample_continue)).

Definition throwing_plugin : HooksPlugin :=
  pre_tool_use_plugin "C" (Some (fun _ => Throw "boom")).

Definition undefined_plugin : HooksPlugin :=
  pre_tool_use_plugin "D" (Some (fun _ => Ok JUndef)).

Definition empty_name_plugin : HooksPlugin := pre_tool_use_plugin "" None.

Definition sample_config : HooksConfig :=
  {| hc_permissions := None;
     hc_plugins := Some [continuing_plugin];
     hc_onPreToolUse := Some (fun _ => Ok sample_block);
     hc_onPostToolUse := None; hc_onNotification := None;
     hc_onUserPromptSubmit := None; hc_onStop := None;
     hc_onSubagentStop := None; hc_onPreCompact := None;
     hc_onSessionStart := None |}.

Definition sample_permissions : Permissions :=
  {| allow := Some {| allow_read := Some (PList ["."]);
                      allow_write := Some (PBool true);
                      allow_net := None; allow_env := None;
                      allow_run := None; allow_sys := None |};
     deny := None |}.

Definition sample_deny_only : Permissions :=
  {| allow := None;
     deny := Some {| deny_read := None; deny_write := Some ["/etc"];
                     deny_net := None; deny_env := None;
                     deny_run := None; deny_sys := None |} |}.

(** ** [generateHooksConfig] *)

(** The [events] array of [generateHooksConfig]. *)
Definition generated_events : list string :=
  ["PreToolUse"; "PostToolUse"; "Notification"; "UserPromptSubmit";
   "Stop"; "SubagentStop"; "PreCompact"; "SessionStart"].

(** [config[event] = [{ matcher: "", hooks: [{ type: "command", command }] }]] *)
Definition generated_entry (event : string) : json :=
  JArr [JObj [("matcher", JStr "");
              ("hooks", JArr [JObj [("type", JStr "command");
                                    ("command", JStr ("claude-tools run hooks.ts " ++ event))]])]].

(** [HooksManager.generateHooksConfig()]: it does not read [this]. *)
Definition generateHooksConfig (m : HooksManager) : json :=
  JObj [("hooks", JObj (map (fun event => (event, generated_entry event)) generated_events))].

(** ** [hooks-runner.ts] *)

(** A lifecycle callback called as a handler: [onLoad(payload)] returns
    [undefined] or throws. *)
Definition lifecycle_as_handler (o : outcome unit) : handler :=
  fun _ => match o with Ok _ => Ok JUndef | Throw e => Throw e end.

(** The function-valued property [hooksPlugin[key]] of a plugin object;
    its other properties ([name], [version], [description]) are strings and
    [Object.prototype] has no member whose name starts with ["on"]. *)
Definition plugin_function (plugin : HooksPlugin) (key : string) : option handler :=
  if String.eqb key "onPreToolUse" then onPreToolUse plugin
  else if String.eqb key "onPostToolUse" then onPostToolUse plugin
  else if String.eqb key "onNotification" then onNotification plugin
  else if String.eqb key "onUserPromptSubmit" then onUserPromptSubmit plugin
  else if String.eqb key "onStop" then onStop plugin
  else if String.eqb key "onSubagentStop" then onSubagentStop plugin
  else if String.eqb key "onPreCompact" then onPreCompact plugin
  else if String.eqb key "onSessionStart" then onSessionStart plugin
  else if String.eqb key "onLoad" then option_map lifecycle_as_handler (onLoad plugin)
  else if String.eqb key "onUnload" then option_map lifecycle_as_handler (onUnload plugin)
  else None.

(** The function-valued properties of a [HooksManager] instance: its class
    methods and those of [Object.prototype] ([plugins] and [permissions]
    are data). *)
Definition manager_methods : list string :=
  ["constructor"; "use"; "generateHooksConfig"; "executeHooks"; "getPlugins";
   "hasOwnProperty"; "isPrototypeOf"; "propertyIsEnumerable"; "toString";
   "valueOf"; "toLocaleString"; "__defineGetter__"; "__defineSetter__";
   "__lookupGetter__"; "__lookupSetter__"].

(** The default export of a hooks file: a plain plugin object, or the
    [HooksManager] returned by [hooks(...)]. *)
Inductive hooks_export : Type :=
| ExportPlugin (plugin : HooksPlugin)
| ExportManager (m : HooksManager).

(** [hooksPlugin[key]] when it is a function.  What a manager method does
    when called with a payload is not modelled (it is never reached by the
    properties below). *)
Definition export_function (x : hooks_export) (key : string) : option handler :=
  match x with
  | ExportPlugin p => plugin_function p key
  | ExportManager _ =>
      if existsb (String.eqb key) manager_methods
      then Some (fun _ => Throw ("call of method " ++ key ++ " not modelled"))
      else None
  end.

(** The [result] printed by [hooks-runner.ts] for [eventType] and the parsed
    [payload]. *)
Definition runner_result (hooksPlugin : hooks_export) (eventType : string)
    (payload : json) : json :=
  match export_function hooksPlugin ("on" ++ eventType) with
  | Some hookHandler =>
      match hookHandler payload with
      | Ok v => if truthy v then v else JObj [("action", JStr "continue")]
      | Throw e => continue_with ("Hook execution error: " ++ e)
      end
  | None => continue_with ("No handler found for event type: " ++ eventType)
  end.

(** ** [smartMergeSettings] and the settings written by [initHooks] *)

Definition res_bind {A B} (m : res A) (k : A -> res B) : res B :=
  match m with ROk a => k a | RErr e => RErr e end.

Notation "'let*' x := m 'in' k" := (res_bind m (fun x => k))
  (at level 200, x name, m at level 100, k at level 200).

(** [v[key]] for the keys read here ("hooks", "type", "command" and event
    names: none is an array index, [length], or an [Object.prototype]
    member): an own property of an object, [undefined] on other values, a
    [TypeError] on [null] and [undefined]. *)
Definition get_prop (v : json) (key : string) : res json :=
  match v with
  | JObj kvs => ROk (match lookup key kvs with Some x => x | None => JUndef end)
  | JUndef | JNull => RErr "TypeError"
  | _ => ROk JUndef
  end.

(** [obj[key] = v] on an object: an existing key keeps its place, a new
    key goes last. *)
Fixpoint set_key (key : string) (v : json) (kvs : list (string * json))
    : list (string * json) :=
  match kvs with
  | [] => [(key, v)]
  | (k, x) :: rest =>
      if String.eqb key k then (k, v) :: rest else (k, x) :: set_key key v rest
  end.

(** [h[key] = v] in module (strict) code, for the truthy [h] of the merge:
    an object gets the key; an array gets a non-index property that
    [JSON.stringify] does not write; a primitive throws. *)
Definition set_prop (h : json) (key : string) (v : json) : res json :=
  match h with
  | JObj kvs => ROk (JObj (set_key key v kvs))
  | JArr l => ROk (JArr l)
  | _ => RErr "TypeError"
  end.

(** [s.includes(needle)] *)
Fixpoint includes (needle hay : string) : bool :=
  String.prefix needle hay
  || match hay with
     | EmptyString => false
     | String _ rest => includes needle rest
     end.

(** [hook.type === "command" && (hook.command?.startsWith("claude-hooks")
    || hook.command?.includes("/claude-hooks"))] *)
Definition is_claude_hooks_command (hook : json) : res bool :=
  let* t := get_prop hook "type" in
  match t with
  | JStr ty =>
      if String.eqb ty "command" then
        let* c := get_prop hook "command" in
        match c with
        | JUndef | JNull => ROk false
        | JStr s => ROk (String.prefix "claude-hooks" s || includes "/claude-hooks" s)
        | _ => RErr "TypeError"
        end
      else ROk false
  | _ => ROk false
  end.

(** [arr.some(f)]: stops at the first [true]. *)
Fixpoint some_res (f : json -> res bool) (l : list json) : res bool :=
  match l with
  | [] => ROk false
  | x :: rest => let* b := f x in if b then ROk true else some_res f rest
  end.

(** [arr.filter(f)] *)
Fixpoint filter_res (f : json -> res bool) (l : list json) : res (list json) :=
  match l with
  | [] => ROk []
  | x :: rest =>
      let* b := f x in
      let* ys := filter_res f rest in
      ROk (if b then x :: ys else ys)
  end.

(** The [existingHooks.filter] callback: [true] keeps the hook. *)
Definition keep_hook (hook : json) : res bool :=
  let* direct := is_claude_hooks_command hook in
  if direct then ROk false
  else
    let* hs := get_prop hook "hooks" in
    if truthy hs then
      match hs with
      | JArr nested => let* s := some_res is_claude_hooks_command nested in ROk (negb s)
      | _ => RErr "TypeError"
      end
    else ROk true.

(** [preservedHooks]: [(existing.hooks[hookType] || []).filter(...)], with
    [h] the current [existing.hooks]. *)
Definition preserved_hooks (h : json) (hookType : string) : res (list json) :=
  let* eh := get_prop h hookType in
  let existingHooks := if truthy eh then eh else JArr [] in
  match existingHooks with
  | JArr l => filter_res keep_hook l
  | _ => RErr "TypeError"
  end.

(** The [for (const [hookType, newHooks] of Object.entries(newSettings.hooks))]
    loop, on the object [existing.hooks] it mutates ([result.hooks] is the
    same object). *)
Fixpoint merge_loop (h : json) (entries : list (string * list json)) : res json :=
  match entries with
  | [] => ROk h
  | (hookType, newHooks) :: rest =>
      let* preservedHooks := preserved_hooks h hookType in
      let* h' := set_prop h hookType (JArr (preservedHooks ++ newHooks)%list) in
      merge_loop h' rest
  end.

(** [newSettings] of type [HooksConfig], given by its [hooks] entries. *)
Definition settings_of (newHooks : list (string * list json)) : json :=
  JObj [("hooks", JObj (map (fun '(k, l) => (k, JArr l)) newHooks))].

(** [{ ...existing }] when [existing.hooks] is truthy, i.e. on an object. *)
Definition spread (v : json) : list (string * json) :=
  match v with JObj kvs => kvs | _ => [] end.

(** [smartMergeSettings(existing, newSettings)]; [result.hooks] is the
    object [existing.hooks] mutated by the loop. *)
Definition smartMergeSettings (existing : json) (newHooks : list (string * list json))
    : res json :=
  let result := spread existing in
  let* eh := get_prop existing "hooks" in
  if negb (truthy eh) then ROk (settings_of newHooks)
  else
    let* h := merge_loop eh newHooks in
    ROk (JObj (set_key "hooks" h result)).

(** The command of [completeSettings] for an event. *)
Definition settings_command (claudeHooksPath hooksFile event : string) : json :=
  JObj [("type", JStr "command");
        ("command", JStr (claudeHooksPath ++ " run .claude/" ++ hooksFile ++ " " ++ event))].

(** [completeSettings.hooks] of [initHooks]: tool events with [matcher: ".*"],
    the other events in a wrapper without matcher. *)
Definition completeSettings (claudeHooksPath hooksFile : string)
    : list (string * list json) :=
  map (fun event =>
         (event,
          [JObj ((if orb (String.eqb event "PreToolUse") (String.eqb event "PostToolUse")
                  then [("matcher", JStr ".*")] else [])
                 ++ [("hooks", JArr [settings_command claudeHooksPath hooksFile event])])]))
      ["PreToolUse"; "PostToolUse"; "Notification"; "UserPromptSubmit";
       "Stop"; "SubagentStop"; "PreCompact"; "SessionStart"].

(** ** Scope selection of [initHooks] *)

Definition ascii_lower (c : Ascii.ascii) : Ascii.ascii :=
  let n := Ascii.nat_of_ascii c in
  if andb (Nat.leb 65 n) (Nat.leb n 90) then Ascii.ascii_of_nat (n + 32) else c.

(** [s.toLowerCase()] on the ASCII letters; other characters are kept.
    The result is only compared with ["user"], ["project"] and ["local"],
    and no other character lowercases to one of their letters. *)
Fixpoint toLowerCase (s : string) : string :=
  match s with
  | EmptyString => EmptyString
  | String c rest => String (ascii_lower c) (toLowerCase rest)
  end.

(** The directory [.claude] is joined to: [$HOME] or [Deno.cwd()]. *)
Inductive claude_base : Type :=
| HomeBase (home : string)
| CwdBase.

Record scope_paths : Type := {
  claudeDir : claude_base;
  settingsFile : string;
  hooksFileName : string;
  location : string
}.

(** The [switch (scope.toLowerCase())] of [initHooks], with
    [scope = options.scope || "project"] and [HOME] from the environment. *)
Definition initHooks_scope (optScope : option string) (home : option string)
    : res scope_paths :=
  let scope := match optScope with
               | Some s => if String.eqb s "" then "project" else s
               | None => "project"
               end in
  let sc := toLowerCase scope in
  if String.eqb sc "user" then
    match home with
    | Some h => if String.eqb h "" then RErr "HOME environment variable not found"
                else ROk {| claudeDir := HomeBase h; settingsFile := "settings.json";
                            hooksFileName := "hooks.ts"; location := "user" |}
    | None => RErr "HOME environment variable not found"
    end
  else if String.eqb sc "project" then
    ROk {| claudeDir := CwdBase; settingsFile := "settings.json";
           hooksFileName := "hooks.ts"; location := "project" |}
  else if String.eqb sc "local" then
    ROk {| claudeDir := CwdBase; settingsFile := "settings.local.json";
           hooksFileName := "hooks.local.ts"; location := "local project" |}
  else RErr ("Invalid scope: " ++ scope ++ ". Must be 'user', 'project', or 'local'.").

(** A plugin whose [onLoad] throws. *)
Definition failing_load_plugin : HooksPlugin :=
  {| name := "L"; version := None; description := None;
     onPreToolUse := None; onPostToolUse := None; onNotification := None;
     onUserPromptSubmit := None; onStop := None; onSubagentStop := None;
     onPreCompact := None; onSessionStart := None;
     onLoad := Some (Throw "no db"); onUnload := None |}.

(** One iteration that ends in the [continue] response [m]: it does not
    break, and the loop goes on with the remaining plugins. *)
Definition failure_isolated (eventType : string) (vp : json) (p : HooksPlugin)
    (m : string) : Prop :=
  exists c,
    run_plugin eventType vp p = (c, Some (continue_with m), false) /\
    forall rest results calls,
      for_plugins eventType vp (p :: rest) results calls =
      for_plugins eventType vp rest (results ++ [continue_with m])%list
                  (calls ++ c)%list.

(** * Properties *)

(** ** zod parsing is idempotent on well-formed schemas *)

Section SchemaInduction.
Variable P : schema -> Prop.
Hypothesis P_string : P SString.
Hypothesis P_number : P SNumber.
Hypothesis P_enum : forall l, P (SEnum l).
Hypothesis P_unknown : P SUnknown.
Hypothesis P_record : P SRecord.
Hypothesis P_optional : forall s, P s -> P (SOptional s).
Hypothesis P_object :
  forall shape, Forall (fun ks => P (snd ks)) shape -> P (SObject shape).

Fixpoint schema_nested_ind (s : schema) : P s :=
  match s with
  | SString => P_string
  | SNumber => P_number
  | SEnum l => P_enum l
  | SUnknown => P_unknown
  | SRecord => P_record
  | SOptional s' => P_optional s' (schema_nested_ind s')
  | SObject shape =>
      P_object shape
        ((fix go (l : list (string * schema))
            : Forall (fun ks => P (snd ks)) l :=
            match l with
            | [] => Forall_nil _
            | (k, s') :: rest =>
                @Forall_cons _ (fun ks => P (snd ks)) (k, s') rest
                  (schema_nested_ind s') (go rest)
            end) shape)
  end.
End SchemaInduction.

Lemma lookup_not_in k kvs : ~ In k (map fst kvs) -> lookup k kvs = None.
Proof.
  induction kvs as [|[k' v] rest IH]; simpl; intros Hn; auto.
  destruct (String.eqb_spec k k'); subst.
  - exfalso; apply Hn; auto.
  - apply IH; intros Hi; apply Hn; auto.
Qed.

Lemma parse_shape_ext p shape kvs1 kvs2 :
  (forall k, In k (map fst shape) -> lookup k kvs1 = lookup k kvs2) ->
  parse_shape p shape kvs1 = parse_shape p shape kvs2.
Proof.
  induction shape as [|[k s] rest IH]; simpl; intros Hl; auto.
  rewrite (Hl k (or_introl eq_refl)).
  rewrite IH by (intros k' Hk'; apply Hl; auto).
  reflexivity.
Qed.

Lemma parse_shape_keys p shape kvs out :
  parse_shape p shape kvs = ROk out ->
  forall k, In k (map fst out) -> In k (map fst shape).
Proof.
  revert out; induction shape as [|[k s] rest IH]; simpl; intros out Hp k' Hk'.
  - inversion Hp; subst; contradiction.
  - destruct (lookup k kvs) as [x|].
    + destruct (p s x) as [y|e]; [|discriminate].
      destruct (parse_shape p rest kvs) as [ys|e] eqn:Er; [|discriminate].
      inversion Hp; subst; simpl in Hk'.
      destruct Hk' as [->|Hk']; [left; reflexivity|right; eapply IH; eauto].
    + destruct (p s JUndef) as [y|e]; [|discriminate].
      destruct (parse_shape p rest kvs) as [ys|e] eqn:Er; [|discriminate].
      destruct y; inversion Hp; subst; simpl in Hk';
        try (destruct Hk' as [->|Hk']; [left; reflexivity|]);
        right; eapply IH; eauto.
Qed.

Lemma parse_shape_idem p shape :
  NoDup (map fst shape) ->
  Forall (fun ks => forall v w, p (snd ks) v = ROk w -> p (snd ks) w = ROk w) shape ->
  forall kvs out, parse_shape p shape kvs = ROk out -> parse_shape p shape out = ROk out.
Proof.
  induction shape as [|[k s] rest IH]; simpl; intros Hnd Hf kvs out Hp.
  - inversion Hp; reflexivity.
  - inversion Hnd as [|? ? Hk Hnd']; subst.
    inversion Hf as [|? ? Hs Hf']; subst; simpl in Hs.
    assert (Hext : forall y ys,
      parse_shape p rest ((k, y) :: ys) = parse_shape p rest ys).
    { intros y ys; apply parse_shape_ext; intros k' Hk'; simpl.
      destruct (String.eqb_spec k' k); subst; [contradiction|reflexivity]. }
    destruct (lookup k kvs) as [x|].
    + destruct (p s x) as [y|e] eqn:Ey; [|discriminate].
      destruct (parse_shape p rest kvs) as [ys|e] eqn:Er; [|discriminate].
      inversion Hp; subst; simpl.
      rewrite String.eqb_refl, (Hs _ _ Ey), Hext, (IH Hnd' Hf' _ _ Er).
      reflexivity.
    + destruct (p s JUndef) as [y|e] eqn:Ey; [|discriminate].
      destruct (parse_shape p rest kvs) as [ys|e] eqn:Er; [|discriminate].
      assert (Hys : lookup k ys = None).
      { apply lookup_not_in; intros Hi; apply Hk.
        eapply parse_shape_keys; eauto. }
      destruct y; inversion Hp; subst; simpl;
        try (rewrite Hys, ?Ey, (IH Hnd' Hf' _ _ Er); reflexivity);
        rewrite String.eqb_refl, (Hs _ _ Ey), Hext, (IH Hnd' Hf' _ _ Er);
        reflexivity.
Qed.

Lemma parse_idem s :
  schema_wf s -> forall v w, parse s v = ROk w -> parse s w = ROk w.
Proof.
  induction s using schema_nested_ind; intros Hwf v w Hp; simpl in Hp |- *.
  - destruct v; inversion Hp; reflexivity.
  - destruct v; inversion Hp; reflexivity.
  - destruct v; try discriminate.
    destruct (existsb (String.eqb s) l) eqn:E; inversion Hp; subst.
    rewrite E; reflexivity.
  - inversion Hp; reflexivity.
  - destruct v; inversion Hp; reflexivity.
  - inversion Hwf; subst.
    destruct v; try (inversion Hp; reflexivity);
      destruct w; try reflexivity; eapply IHs; eauto.
  - inversion Hwf as [| | | | | |? Hnd Hfw]; subst.
    destruct v; try discriminate.
    destruct (parse_shape parse shape fields) as [out|e] eqn:E; [|discriminate].
    inversion Hp; subst.
    rewrite (parse_shape_idem parse shape Hnd) with (kvs := fields); auto.
    rewrite Forall_forall in H, Hfw |- *.
    intros ks Hin; apply H; auto.
Qed.

Ltac solve_wf :=
  repeat first
    [ match goal with
      | |- ~ In _ _ =>
          simpl; intros Hin; repeat destruct Hin as [Hin|Hin]; try discriminate; contradiction
      end
    | constructor
    | progress simpl ].

Lemma ContextSchema_wf : schema_wf ContextSchema.
Proof. unfold ContextSchema; solve_wf. Qed.

Lemma HookResponseSchema_wf : schema_wf HookResponseSchema.
Proof. unfold HookResponseSchema; solve_wf. Qed.

Lemma payload_schema_wf eventType s :
  payload_schema eventType = Some s -> schema_wf s.
Proof.
  unfold payload_schema.
  repeat match goal with
         | |- context [if ?b then _ else _] => destruct b
         end; intros H; inversion H; subst;
    unfold PreToolUsePayloadSchema, PostToolUsePayloadSchema,
      NotificationPayloadSchema, UserPromptSubmitPayloadSchema,
      StopPayloadSchema, SubagentStopPayloadSchema, PreCompactPayloadSchema,
      SessionStartPayloadSchema, reason_enum;
    solve_wf; apply ContextSchema_wf.
Qed.

(** A validated payload passes its event's schema again. *)
Lemma validate_payload_sound eventType payload validatedPayload :
  validate_payload eventType payload = ROk validatedPayload ->
  exists s, payload_schema eventType = Some s /\
            parse s validatedPayload = ROk validatedPayload.
Proof.
  unfold validate_payload; destruct (payload_schema eventType) as [s|] eqn:E;
    intros H; [|discriminate].
  exists s; split; auto.
  eapply parse_idem; eauto using payload_schema_wf.
Qed.

(** ** One iteration of the loop *)

Lemma continue_with_valid m :
  parse HookResponseSchema (continue_with m) = ROk (continue_with m).
Proof. reflexivity. Qed.

Lemma continue_with_not_block m : is_block (continue_with m) = false.
Proof. reflexivity. Qed.

Lemma run_plugin_response eventType vp plugin cs r stop :
  run_plugin eventType vp plugin = (cs, r, stop) ->
  match r with
  | Some resp => stop = is_block resp /\
                 parse HookResponseSchema resp = ROk resp
  | None => stop = false
  end.
Proof.
  unfold run_plugin.
  destruct (onLoad plugin) as [[[]|e]|];
    [ destruct (handler_for eventType plugin) as [h|]
    | | destruct (handler_for eventType plugin) as [h|] ];
    try (intros H; inversion H; subst; auto using continue_with_valid; fail);
    destruct (h vp) as [result|e];
    try (intros H; inversion H; subst; auto using continue_with_valid; fail);
    destruct (truthy result);
    try (intros H; inversion H; subst; auto; fail);
    destruct (parse HookResponseSchema result) as [v|e] eqn:Ep;
    intros H; inversion H; subst; auto using continue_with_valid;
    split; auto; eapply parse_idem; eauto using HookResponseSchema_wf.
Qed.

Lemma run_plugin_block eventType vp plugin cs r stop :
  run_plugin eventType vp plugin = (cs, Some r, stop) -> stop = is_block r.
Proof. intros H; apply run_plugin_response in H; tauto. Qed.

(** ** The loop *)

Lemma for_plugins_acc eventType vp ps rs cs :
  for_plugins eventType vp ps rs cs =
  ((rs ++ fst (for_plugins eventType vp ps [] []))%list,
   (cs ++ snd (for_plugins eventType vp ps [] []))%list).
Proof.
  revert rs cs; induction ps as [|p ps IH]; intros rs cs; simpl.
  - rewrite !app_nil_r; reflexivity.
  - destruct (run_plugin eventType vp p) as [[c r] stop].
    destruct stop; simpl; [reflexivity|].
    rewrite (IH (rs ++ option_to_list r)%list), (IH (option_to_list r)).
    simpl; rewrite !app_assoc; reflexivity.
Qed.

Lemma for_plugins_results_calls eventType vp ps rs cs cs' :
  fst (for_plugins eventType vp ps rs cs) = fst (for_plugins eventType vp ps rs cs').
Proof. rewrite (for_plugins_acc _ _ _ rs cs), (for_plugins_acc _ _ _ rs cs'); reflexivity. Qed.

(** A plugin whose step breaks the loop hides every later plugin. *)
Lemma for_plugins_cut eventType vp ps1 p ps2 rs cs c r :
  run_plugin eventType vp p = (c, r, true) ->
  for_plugins eventType vp (ps1 ++ p :: ps2) rs cs =
  for_plugins eventType vp (ps1 ++ [p]) rs cs.
Proof.
  intros Hp; revert rs cs; induction ps1 as [|p0 ps1 IH]; intros rs cs; simpl.
  - rewrite Hp; reflexivity.
  - destruct (run_plugin eventType vp p0) as [[c0 r0] stop0].
    destruct stop0; [reflexivity|apply IH].
Qed.

Lemma find_block_app_none l x :
  find_block l = None -> find_block (l ++ [x])%list = if is_block x then Some x else None.
Proof.
  induction l as [|y l IH]; simpl; intros H; auto.
  destruct (is_block y); [discriminate|auto].
Qed.

Lemma last_result_app l x : last_result (l ++ [x])%list = Some x.
Proof.
  induction l as [|y l IH]; [reflexivity|].
  simpl; destruct (l ++ [x])%list eqn:E; [destruct l; discriminate|exact IH].
Qed.

(** The loop appends at most one [block] response, and only as its last. *)
Lemma for_plugins_block_last eventType vp ps rs cs :
  find_block rs = None ->
  let rs' := fst (for_plugins eventType vp ps rs cs) in
  find_block rs' = None \/
  exists b, find_block rs' = Some b /\ last_result rs' = Some b.
Proof.
  revert rs cs; induction ps as [|p ps IH]; intros rs cs Hrs; simpl; auto.
  destruct (run_plugin eventType vp p) as [[c r] stop] eqn:Ep.
  apply run_plugin_response in Ep.
  destruct r as [resp|]; simpl.
  - destruct Ep as [-> _].
    destruct (is_block resp) eqn:Eb; simpl.
    + right; exists resp; rewrite find_block_app_none, Eb by auto.
      split; [reflexivity|apply last_result_app].
    + apply IH; rewrite find_block_app_none, Eb by auto; reflexivity.
  - subst stop; rewrite app_nil_r; apply IH; auto.
Qed.

(** Every handler call made by the loop receives the validated payload. *)
Lemma for_plugins_calls eventType vp ps rs cs n e x :
  In (CInvoke n e x) (snd (for_plugins eventType vp ps rs cs)) ->
  In (CInvoke n e x) cs \/ (e = eventType /\ x = vp).
Proof.
  revert rs cs; induction ps as [|p ps IH]; intros rs cs; simpl; auto.
  assert (Hc : forall c r stop, run_plugin eventType vp p = (c, r, stop) ->
            In (CInvoke n e x) c -> e = eventType /\ x = vp).
  { intros c r stop; unfold run_plugin.
    destruct (onLoad p) as [[[]|m]|];
      [ destruct (handler_for eventType p) as [h|]
      | | destruct (handler_for eventType p) as [h|] ];
      try (intros H; inversion H; subst; simpl; intros Hi;
           repeat destruct Hi as [Hi|Hi]; try discriminate; contradiction);
      destruct (h vp) as [result|m];
      try destruct (truthy result);
      try destruct (parse HookResponseSchema result);
      intros H; inversion H; subst; simpl; intros Hi;
      repeat destruct Hi as [Hi|Hi]; try discriminate; try contradiction;
      inversion Hi; auto. }
  destruct (run_plugin eventType vp p) as [[c r] stop] eqn:Ep.
  destruct stop; simpl; intros Hi.
  - apply in_app_or in Hi; destruct Hi as [Hi|Hi]; eauto.
  - apply IH in Hi; destruct Hi as [Hi|Hi]; auto.
    apply in_app_or in Hi; destruct Hi as [Hi|Hi]; eauto.
Qed.

(** Every response the loop appends is a parsed [HookResponse]. *)
Lemma for_plugins_valid eventType vp ps rs cs :
  (forall r, In r rs -> parse HookResponseSchema r = ROk r) ->
  forall r, In r (fst (for_plugins eventType vp ps rs cs)) ->
  parse HookResponseSchema r = ROk r.
Proof.
  revert rs cs; induction ps as [|p ps IH]; intros rs cs Hrs; simpl; auto.
  destruct (run_plugin eventType vp p) as [[c r0] stop] eqn:Ep.
  apply run_plugin_response in Ep.
  assert (Hrs' : forall r, In r (rs ++ option_to_list r0)%list ->
                 parse HookResponseSchema r = ROk r).
  { intros r Hi; apply in_app_or in Hi; destruct Hi as [Hi|Hi]; auto.
    destruct r0 as [resp|]; simpl in Hi; [|contradiction].
    destruct Hi as [<-|[]]; tauto. }
  destruct stop; simpl; [exact Hrs'|apply IH; exact Hrs'].
Qed.

Lemma executeHooks_valid eventType payload ps r :
  In r (fst (executeHooks eventType payload ps)) ->
  parse HookResponseSchema r = ROk r.
Proof.
  unfold executeHooks; destruct (validate_payload eventType payload).
  - apply for_plugins_valid; simpl; tauto.
  - simpl; intros [<-|[]]; apply continue_with_valid.
Qed.

Lemma parse_object_truthy v r :
  parse HookResponseSchema v = ROk r -> truthy v = true.
Proof. destruct v; simpl; intros H; try discriminate; reflexivity. Qed.

Lemma run_plugin_validated eventType vp p h v r :
  (onLoad p = None \/ onLoad p = Some (Ok tt)) ->
  handler_for eventType p = Some h ->
  h vp = Ok v ->
  parse HookResponseSchema v = ROk r ->
  exists c, run_plugin eventType vp p = (c, Some r, is_block r).
Proof.
  intros Hl Hh Hr Hp; unfold run_plugin.
  rewrite Hh, Hr, (parse_object_truthy _ _ Hp), Hp.
  destruct Hl as [-> | ->]; eexists; reflexivity.
Qed.

Lemma for_plugins_ends_in_block eventType vp ps1 p rs cs c r :
  run_plugin eventType vp p = (c, Some r, true) ->
  exists b, last_result (fst (for_plugins eventType vp (ps1 ++ [p]) rs cs)) = Some b /\
            is_block b = true.
Proof.
  intros Hp; revert rs cs; induction ps1 as [|p0 ps1 IH]; intros rs cs; simpl.
  - rewrite Hp; simpl; exists r; split; [apply last_result_app|].
    apply run_plugin_block in Hp; auto.
  - destruct (run_plugin eventType vp p0) as [[c0 r0] stop0] eqn:E0.
    apply run_plugin_response in E0.
    destruct stop0; [|apply IH].
    destruct r0 as [b|]; [|discriminate].
    destruct E0 as [Eb _]; simpl.
    exists b; split; [apply last_result_app|auto].
Qed.

(** C1: for a dispatch whose payload validates, the verdict of [main] is the
    first [block] response, which is then also the last one appended;
    without a [block] response it is the last response, and without any
    response [{action: "continue"}]; with no plugin it is exactly
    [{action: "continue"}], without [message]. *)
Theorem verdict_of_dispatch eventType payload validatedPayload ps
  (Hv : validate_payload eventType payload = ROk validatedPayload) :
  let results := fst (executeHooks eventType payload ps) in
  (forall b, find_block results = Some b ->
             finalResult results = b /\ last_result results = Some b) /\
  (find_block results = None ->
   finalResult results = match last_result results with
                         | Some r => r
                         | None => JObj [("action", JStr "continue")]
                         end) /\
  (ps = [] -> finalResult results = JObj [("action", JStr "continue")]).
Proof.
  cbv zeta; unfold executeHooks; rewrite Hv.
  split; [|split].
  - intros b Hb; unfold finalResult; rewrite Hb; split; [reflexivity|].
    destruct (for_plugins_block_last eventType validatedPayload ps [] []
                eq_refl) as [Hn|[b' [Hb' Hl]]].
    + rewrite Hn in Hb; discriminate.
    + rewrite Hb in Hb'; inversion Hb'; subst; exact Hl.
  - intros Hn; unfold finalResult; rewrite Hn; reflexivity.
  - intros ->; reflexivity.
Qed.

Lemma verdict_of_dispatch_witness :
  validate_payload "PreToolUse" sample_pre_tool_use = ROk sample_pre_tool_use /\
  (let results := fst (executeHooks "PreToolUse" sample_pre_tool_use
                         [continuing_plugin; blocking_plugin]) in
   (forall b, find_block results = Some b ->
              finalResult results = b /\ last_result results = Some b) /\
   (find_block results = None ->
    finalResult results = match last_result results with
                          | Some r => r
                          | None => JObj [("action", JStr "continue")]
                          end) /\
   ([continuing_plugin; blocking_plugin] = [] ->
    finalResult results = JObj [("action", JStr "continue")])).
Proof.
  split; [reflexivity|].
  apply (verdict_of_dispatch "PreToolUse" sample_pre_tool_use sample_pre_tool_use).
  reflexivity.
Defined.

(** C2: once a plugin's validated response is a [block], the loop stops:
    the run over [ps1 ++ p :: ps2] is the run over [ps1 ++ [p]] (same
    responses, same [onLoad] and handler calls, none on [ps2]), and its
    last response is a [block]. *)
Theorem block_short_circuits eventType payload vp ps1 p ps2 h v r
  (Hv : validate_payload eventType payload = ROk vp)
  (Hload : onLoad p = None \/ onLoad p = Some (Ok tt))
  (Hh : handler_for eventType p = Some h)
  (Hr : h vp = Ok v)
  (Hparse : parse HookResponseSchema v = ROk r)
  (Hb : is_block r = true) :
  executeHooks eventType payload (ps1 ++ p :: ps2) =
  executeHooks eventType payload (ps1 ++ [p]) /\
  exists b, last_result (fst (executeHooks eventType payload (ps1 ++ [p]))) = Some b /\
            is_block b = true.
Proof.
  destruct (run_plugin_validated eventType vp p h v r Hload Hh Hr Hparse) as [c Hc].
  rewrite Hb in Hc.
  unfold executeHooks; rewrite Hv; split.
  - eapply for_plugins_cut; eauto.
  - eapply for_plugins_ends_in_block; eauto.
Qed.

Lemma block_short_circuits_witness :
  validate_payload "PreToolUse" sample_pre_tool_use = ROk sample_pre_tool_use /\
  executeHooks "PreToolUse" sample_pre_tool_use ([] ++ blocking_plugin :: [continuing_plugin]) =
  executeHooks "PreToolUse" sample_pre_tool_use ([] ++ [blocking_plugin]) /\
  exists b, last_result (fst (executeHooks "PreToolUse" sample_pre_tool_use
                                ([] ++ [blocking_plugin]))) = Some b /\
            is_block b = true.
Proof.
  split; [reflexivity|].
  apply (block_short_circuits "PreToolUse" sample_pre_tool_use sample_pre_tool_use
           [] blocking_plugin [continuing_plugin] (fun _ => Ok sample_block)
           sample_block sample_block); try reflexivity.
  left; reflexivity.
Defined.

(** C3: a payload that fails its event's schema yields the single response
    [{action: "continue", message: "Invalid payload: ..."}] with a non-empty
    message and no call on any plugin; and in every dispatch, every handler
    receives a payload that passes its event's schema. *)
Theorem validation_gate eventType s payload e ps
  (Hs : payload_schema eventType = Some s)
  (He : parse s payload = RErr e) :
  executeHooks eventType payload ps = ([continue_with ("Invalid payload: " ++ e)], []) /\
  ("Invalid payload: " ++ e) <> "" /\
  (forall eventType' payload' ps' n e' x,
     In (CInvoke n e' x) (snd (executeHooks eventType' payload' ps')) ->
     exists s', payload_schema eventType' = Some s' /\ parse s' x = ROk x).
Proof.
  split; [|split].
  - unfold executeHooks, validate_payload; rewrite Hs, He; reflexivity.
  - discriminate.
  - intros eventType' payload' ps' n e' x; unfold executeHooks.
    destruct (validate_payload eventType' payload') as [vp|m] eqn:Ev.
    + intros Hi; apply for_plugins_calls in Hi.
      destruct Hi as [[]|[_ ->]].
      exact (validate_payload_sound _ _ _ Ev).
    + simpl; intros [].
Qed.

Lemma validation_gate_witness :
  payload_schema "PreToolUse" = Some PreToolUsePayloadSchema /\
  parse PreToolUsePayloadSchema sample_missing_tool_name = RErr "Required: tool_name" /\
  (executeHooks "PreToolUse" sample_missing_tool_name [blocking_plugin] =
     ([continue_with ("Invalid payload: " ++ "Required: tool_name")], []) /\
   ("Invalid payload: " ++ "Required: tool_name") <> "" /\
   (forall eventType' payload' ps' n e' x,
      In (CInvoke n e' x) (snd (executeHooks eventType' payload' ps')) ->
      exists s', payload_schema eventType' = Some s' /\ parse s' x = ROk x)).
Proof.
  split; [reflexivity|split; [reflexivity|]].
  apply (validation_gate "PreToolUse" PreToolUsePayloadSchema
           sample_missing_tool_name "Required: tool_name" [blocking_plugin]);
    reflexivity.
Defined.

(** The handler failure described by the specification: a returned value
    that does not match [HookResponseSchema] gets no diagnostic when it is
    falsy ([undefined] here): nothing is appended. *)
Lemma plugin_failure_counterexample :
  parse HookResponseSchema JUndef = RErr "Expected object" /\
  fst (executeHooks "PreToolUse" sample_pre_tool_use
         [undefined_plugin; continuing_plugin]) = [sample_continue].
Proof. split; reflexivity. Qed.

(** C4 (amended): when a plugin's [onLoad] throws, or its handler throws,
    the iteration appends [{action: "continue", message: "Plugin error: e"}];
    when its handler returns a truthy value that fails [HookResponseSchema],
    it appends [{action: "continue", message: "Plugin returned invalid
    response: e"}]; in these cases it does not break and the loop goes on
    with the remaining plugins.  A handler returning a falsy value appends
    no response and no diagnostic, and the loop goes on.  Every response of
    every dispatch is a well-formed [HookResponse]. *)
Theorem plugin_failure_isolated eventType vp p :
  (forall e, onLoad p = Some (Throw e) ->
     failure_isolated eventType vp p ("Plugin error: " ++ e)) /\
  (forall h, (onLoad p = None \/ onLoad p = Some (Ok tt)) ->
     handler_for eventType p = Some h ->
     (forall e, h vp = Throw e ->
        failure_isolated eventType vp p ("Plugin error: " ++ e)) /\
     (forall v e, h vp = Ok v -> truthy v = true ->
        parse HookResponseSchema v = RErr e ->
        failure_isolated eventType vp p ("Plugin returned invalid response: " ++ e)) /\
     (forall v, h vp = Ok v -> truthy v = false ->
        exists c,
          run_plugin eventType vp p = (c, None, false) /\
          forall rest results calls,
            for_plugins eventType vp (p :: rest) results calls =
            for_plugins eventType vp rest results (calls ++ c)%list)) /\
  (forall eventType' payload ps r,
     In r (fst (executeHooks eventType' payload ps)) ->
     parse HookResponseSchema r = ROk r).
Proof.
  assert (Hgo : forall m c,
            run_plugin eventType vp p = (c, Some (continue_with m), false) ->
            failure_isolated eventType vp p m).
  { intros m c Hc; exists c; split; [exact Hc|].
    intros rest results calls; simpl; rewrite Hc; reflexivity. }
  split; [|split; [|exact executeHooks_valid]].
  - intros e He; eapply Hgo; unfold run_plugin; rewrite He; reflexivity.
  - intros h Hl Hh; repeat split.
    + intros e Hv; destruct Hl as [Hl | Hl]; eapply Hgo; unfold run_plugin;
        rewrite Hl, Hh, Hv; reflexivity.
    + intros v e Hv Ht He; destruct Hl as [Hl | Hl]; eapply Hgo; unfold run_plugin;
        rewrite Hl, Hh, Hv, Ht, He; reflexivity.
    + intros v Hv Ht.
      assert (Hc : run_plugin eventType vp p =
                   ((match onLoad p with Some _ => [CLoad (name p)] | None => [] end
                     ++ [CInvoke (name p) eventType vp])%list, None, false)).
      { unfold run_plugin; rewrite Hh, Hv, Ht; destruct Hl as [-> | ->]; reflexivity. }
      eexists; split; [exact Hc|].
      intros rest results calls; simpl; rewrite Hc; simpl.
      rewrite app_nil_r; reflexivity.
Qed.

Lemma plugin_failure_isolated_witness :
  failure_isolated "PreToolUse" sample_pre_tool_use throwing_plugin ("Plugin error: " ++ "boom") /\
  exists c,
    run_plugin "PreToolUse" sample_pre_tool_use undefined_plugin = (c, None, false).
Proof.
  destruct (plugin_failure_isolated "PreToolUse" sample_pre_tool_use throwing_plugin)
    as [_ [H1 _]].
  destruct (plugin_failure_isolated "PreToolUse" sample_pre_tool_use undefined_plugin)
    as [_ [H2 _]].
  split.
  - exact (proj1 (H1 (fun _ => Throw "boom") (or_introl eq_refl) eq_refl) "boom" eq_refl).
  - destruct (proj2 (proj2 (H2 (fun _ => Ok JUndef) (or_introl eq_refl) eq_refl))
                JUndef eq_refl eq_refl) as [c [Hc _]].
    exists c; exact Hc.
Defined.

(** An event name outside the eight is turned into a [continue] response:
    no error reaches the caller. *)
Lemma unknown_event_counterexample :
  payload_schema "Foo" = None /\
  executeHooks "Foo" sample_pre_tool_use [blocking_plugin] =
    ([JObj [("action", JStr "continue");
            ("message", JStr "Invalid payload: Unknown event type: Foo")]], []).
Proof. split; reflexivity. Qed.

Lemma payload_schema_none eventType :
  payload_schema eventType = None <->
  ~ In eventType ["PreToolUse"; "PostToolUse"; "Notification"; "UserPromptSubmit";
                  "Stop"; "SubagentStop"; "PreCompact"; "SessionStart"].
Proof.
  unfold payload_schema; simpl.
  repeat match goal with
         | |- context [String.eqb eventType ?b] => destruct (String.eqb_spec eventType b)
         end; subst; split; intros H; try discriminate; try tauto;
    intros Hin; repeat destruct Hin as [Hin|Hin]; congruence.
Qed.

(** C5 (amended): for an event name outside the eight EventTypes,
    [executeHooks] calls no plugin and returns the single response
    [{action: "continue", message: "Invalid payload: Unknown event type: <E>"}];
    the error is caught by the validation [try] and not surfaced. *)
Theorem unknown_event_swallowed eventType payload ps
  (Hu : ~ In eventType ["PreToolUse"; "PostToolUse"; "Notification";
                        "UserPromptSubmit"; "Stop"; "SubagentStop";
                        "PreCompact"; "SessionStart"]) :
  executeHooks eventType payload ps =
  ([continue_with ("Invalid payload: Unknown event type: " ++ eventType)], []).
Proof.
  apply payload_schema_none in Hu.
  unfold executeHooks, validate_payload; rewrite Hu; reflexivity.
Qed.

Lemma unknown_event_swallowed_witness :
  ~ In "Foo" ["PreToolUse"; "PostToolUse"; "Notification"; "UserPromptSubmit";
              "Stop"; "SubagentStop"; "PreCompact"; "SessionStart"] /\
  executeHooks "Foo" sample_pre_tool_use [blocking_plugin] =
  ([continue_with ("Invalid payload: Unknown event type: " ++ "Foo")], []).
Proof.
  assert (H : ~ In "Foo" ["PreToolUse"; "PostToolUse"; "Notification";
                          "UserPromptSubmit"; "Stop"; "SubagentStop";
                          "PreCompact"; "SessionStart"]).
  { simpl; intros Hin; repeat destruct Hin as [Hin|Hin]; try discriminate; exact Hin. }
  split; [exact H|].
  exact (unknown_event_swallowed "Foo" sample_pre_tool_use [blocking_plugin] H).
Defined.

Lemma handler_for_unbind eventType p :
  handler_for eventType (unbind_handler eventType p) = None.
Proof.
  unfold handler_for, unbind_handler; simpl.
  repeat match goal with
         | |- context [String.eqb ?a ?b] => destruct (String.eqb a b)
         end; reflexivity.
Qed.

(** Two plugins whose steps push the same response and agree on breaking
    give the same responses wherever they stand in the list. *)
Lemma for_plugins_swap eventType vp ps1 p p' ps2 rs cs cs' c c' r stop :
  run_plugin eventType vp p = (c, r, stop) ->
  run_plugin eventType vp p' = (c', r, stop) ->
  fst (for_plugins eventType vp (ps1 ++ p :: ps2) rs cs) =
  fst (for_plugins eventType vp (ps1 ++ p' :: ps2) rs cs').
Proof.
  intros Hp Hp'; revert rs cs cs'; induction ps1 as [|p0 ps1 IH];
    intros rs cs cs'; simpl.
  - rewrite Hp, Hp'; destruct stop; [reflexivity|apply for_plugins_results_calls].
  - destruct (run_plugin eventType vp p0) as [[c0 r0] stop0].
    destruct stop0; [reflexivity|apply IH].
Qed.

(** C10: a handler that is called and returns a falsy value contributes no
    response (no validation, no diagnostic), and the responses of the
    dispatch are those obtained with that handler unbound. *)
Theorem falsy_return_is_unbound eventType payload vp ps1 p ps2 h v
  (Hv : validate_payload eventType payload = ROk vp)
  (Hload : onLoad p = None \/ onLoad p = Some (Ok tt))
  (Hh : handler_for eventType p = Some h)
  (Hr : h vp = Ok v)
  (Hf : truthy v = false) :
  snd (fst (run_plugin eventType vp p)) = None /\
  fst (executeHooks eventType payload (ps1 ++ p :: ps2)) =
  fst (executeHooks eventType payload (ps1 ++ unbind_handler eventType p :: ps2)).
Proof.
  assert (E1 : exists c, run_plugin eventType vp p = (c, None, false)).
  { unfold run_plugin; rewrite Hh, Hr, Hf.
    destruct Hload as [-> | ->]; eexists; reflexivity. }
  assert (E2 : exists c, run_plugin eventType vp (unbind_handler eventType p)
                         = (c, None, false)).
  { unfold run_plugin; rewrite handler_for_unbind; simpl.
    destruct Hload as [-> | ->]; eexists; reflexivity. }
  destruct E1 as [c1 E1]; destruct E2 as [c2 E2].
  split; [rewrite E1; reflexivity|].
  unfold executeHooks; rewrite Hv.
  eapply for_plugins_swap; eauto.
Qed.

Lemma falsy_return_is_unbound_witness :
  validate_payload "PreToolUse" sample_pre_tool_use = ROk sample_pre_tool_use /\
  snd (fst (run_plugin "PreToolUse" sample_pre_tool_use undefined_plugin)) = None /\
  fst (executeHooks "PreToolUse" sample_pre_tool_use
         ([] ++ undefined_plugin :: [continuing_plugin])) =
  fst (executeHooks "PreToolUse" sample_pre_tool_use
         ([] ++ unbind_handler "PreToolUse" undefined_plugin :: [continuing_plugin])).
Proof.
  split; [reflexivity|].
  apply (falsy_return_is_unbound "PreToolUse" sample_pre_tool_use sample_pre_tool_use
           [] undefined_plugin [continuing_plugin] (fun _ => Ok JUndef) JUndef);
    try reflexivity.
  left; reflexivity.
Defined.

(** [use] accepts a plugin with an empty name: it is appended. *)
Lemma register_counterexample :
  name empty_name_plugin = "" /\
  plugins (use (new_HooksManager None) empty_name_plugin) = [empty_name_plugin].
Proof. split; reflexivity. Qed.

(** C8 (amended): [use(plugin)] never fails, whatever [plugin.name] is
    (also empty): it appends [plugin] at the end of the plugin list, keeps
    the earlier plugins and the permissions, and dispatch through the
    manager walks the list in that order. *)
Theorem use_appends m plugin eventType payload :
  plugins (use m plugin) = (plugins m ++ [plugin])%list /\
  firstn (length (plugins m)) (plugins (use m plugin)) = plugins m /\
  permissions (use m plugin) = permissions m /\
  manager_executeHooks (use m plugin) eventType payload =
  executeHooks eventType payload (plugins m ++ [plugin]).
Proof.
  split; [reflexivity|split; [|split; reflexivity]].
  simpl; rewrite firstn_app, Nat.sub_diag, firstn_all; simpl.
  apply app_nil_r.
Qed.

(** C9: [hooks(config)] builds a manager whose plugins are the synthetic
    plugin ["inline-hooks"] (version ["0.0.0"], the config's handlers, no
    [onLoad]) followed by [config.plugins] in order; an inline handler is
    the first call of a dispatch, and an inline [block] stops the run before
    any listed plugin. *)
Theorem hooks_inline_first c eventType payload vp h
  (Hv : validate_payload eventType payload = ROk vp)
  (Hh : config_handler_for eventType c = Some h) :
  plugins (hooks c) = inline_plugin c :: match hc_plugins c with
                                          | Some ps => ps
                                          | None => []
                                          end /\
  name (inline_plugin c) = "inline-hooks" /\
  version (inline_plugin c) = Some "0.0.0" /\
  onLoad (inline_plugin c) = None /\
  (forall e, handler_for e (inline_plugin c) = config_handler_for e c) /\
  (exists rest, snd (manager_executeHooks (hooks c) eventType payload) =
                CInvoke "inline-hooks" eventType vp :: rest) /\
  (forall v r, h vp = Ok v -> parse HookResponseSchema v = ROk r ->
     is_block r = true ->
     manager_executeHooks (hooks c) eventType payload =
     ([r], [CInvoke "inline-hooks" eventType vp])).
Proof.
  assert (Hfor : forall e, handler_for e (inline_plugin c) = config_handler_for e c)
    by reflexivity.
  split; [reflexivity|split; [reflexivity|split; [reflexivity|split; [reflexivity|]]]].
  split; [exact Hfor|].
  unfold manager_executeHooks, executeHooks; rewrite Hv.
  change (plugins (hooks c)) with
    (inline_plugin c :: match hc_plugins c with Some ps => ps | None => [] end).
  cbn [for_plugins].
  assert (Hrun : exists r stop,
            run_plugin eventType vp (inline_plugin c) =
            ([CInvoke "inline-hooks" eventType vp], r, stop)).
  { unfold run_plugin.
    change (onLoad (inline_plugin c)) with (@None (outcome unit)).
    change (name (inline_plugin c)) with "inline-hooks".
    rewrite Hfor, Hh.
    destruct (h vp) as [v|e]; [|eexists _, _; reflexivity].
    destruct (truthy v); [|eexists _, _; reflexivity].
    destruct (parse HookResponseSchema v); eexists _, _; reflexivity. }
  split.
  - destruct Hrun as [r [stop Hrun]]; rewrite Hrun.
    destruct stop; simpl; [eexists; reflexivity|].
    rewrite for_plugins_acc; eexists; reflexivity.
  - intros v r Ev Ep Eb.
    unfold run_plugin.
    change (onLoad (inline_plugin c)) with (@None (outcome unit)).
    change (name (inline_plugin c)) with "inline-hooks".
    rewrite Hfor, Hh.
    rewrite Ev, (parse_object_truthy _ _ Ep), Ep, Eb; reflexivity.
Qed.

Lemma hooks_inline_first_witness :
  validate_payload "PreToolUse" sample_pre_tool_use = ROk sample_pre_tool_use /\
  config_handler_for "PreToolUse" sample_config = Some (fun _ => Ok sample_block) /\
  (plugins (hooks sample_config) =
     inline_plugin sample_config :: match hc_plugins sample_config with
                                    | Some ps => ps
                                    | None => []
                                    end /\
   name (inline_plugin sample_config) = "inline-hooks" /\
   version (inline_plugin sample_config) = Some "0.0.0" /\
   onLoad (inline_plugin sample_config) = None /\
   (forall e, handler_for e (inline_plugin sample_config) =
              config_handler_for e sample_config) /\
   (exists rest, snd (manager_executeHooks (hooks sample_config) "PreToolUse"
                        sample_pre_tool_use) =
                 CInvoke "inline-hooks" "PreToolUse" sample_pre_tool_use :: rest) /\
   (forall v r, (fun (_ : json) => Ok sample_block) sample_pre_tool_use = Ok v ->
      parse HookResponseSchema v = ROk r -> is_block r = true ->
      manager_executeHooks (hooks sample_config) "PreToolUse" sample_pre_tool_use =
      ([r], [CInvoke "inline-hooks" "PreToolUse" sample_pre_tool_use]))).
Proof.
  split; [reflexivity|split; [reflexivity|]].
  apply (hooks_inline_first sample_config "PreToolUse" sample_pre_tool_use
           sample_pre_tool_use (fun _ => Ok sample_block)); reflexivity.
Defined.

(** ** Permission flags *)

(** C6: the flags of [runHooksFile] are the specified resolution of the
    [allow] section rendered as Deno flags: per capability in the order
    read, write, net, env, run, sys, one [--allow-<cap>=<scope>] per listed
    scope in list order, one [--allow-<cap>] for [true], nothing for an
    absent key or [false]; [{allow: {read: ["."], write: true}}] gives
    exactly [--allow-read=.] then [--allow-write]; [permission_flags] is a
    function of the descriptor, so two resolutions agree. *)
Theorem permission_flags_resolve d :
  permission_flags d = map render_flag (spec_resolve_allow d) /\
  permission_flags sample_permissions = ["--allow-read=."; "--allow-write"] /\
  map render_flag (spec_resolve_allow sample_permissions) =
    [render_flag (Scoped "read" "."); render_flag (AllowAll "write")] /\
  (forall d', d' = d -> permission_flags d' = permission_flags d).
Proof.
  assert (Hcap : forall cap v,
            capability_flags cap v = map render_flag (spec_allow_flags cap v)).
  { intros cap [[scopes|[|]]|]; simpl; auto.
    rewrite map_map; reflexivity. }
  split; [|split; [reflexivity|split; [reflexivity|intros d' ->; reflexivity]]].
  unfold permission_flags, spec_resolve_allow.
  destruct (allow d) as [a|]; [|reflexivity].
  rewrite !map_app, !Hcap; reflexivity.
Qed.

(** The [deny] section is not read: a deny entry gives no flag. *)
Lemma deny_ignored_counterexample :
  deny_write (match deny sample_deny_only with Some dn => dn | None =>
                {| deny_read := None; deny_write := None; deny_net := None;
                   deny_env := None; deny_run := None; deny_sys := None |} end)
    = Some ["/etc"] /\
  permission_flags sample_deny_only = [] /\
  ~ In (render_flag (DenyScoped "write" "/etc")) (permission_flags sample_deny_only).
Proof. split; [reflexivity|split; [reflexivity|simpl; tauto]]. Qed.

Lemma prefix_app p x : String.prefix p (p ++ x) = true.
Proof.
  induction p as [|a p IH]; [destruct x; reflexivity|].
  simpl; destruct (Ascii.ascii_dec a a) as [_|n]; [exact IH|contradiction].
Qed.

(** C7 (amended): the [deny] section is ignored: the flags of a descriptor
    are those of its [allow] section alone, whatever its [deny] entries,
    and every flag emitted is a positive [--allow-] flag. *)
Theorem deny_section_ignored a dn :
  permission_flags {| allow := a; deny := dn |} =
  permission_flags {| allow := a; deny := None |} /\
  forall f, In f (permission_flags {| allow := a; deny := dn |}) ->
            String.prefix "--allow-" f = true.
Proof.
  split; [reflexivity|].
  destruct (permission_flags_resolve {| allow := a; deny := dn |}) as [-> _].
  intros f Hf; apply in_map_iff in Hf; destruct Hf as [sf [<- Hsf]].
  unfold spec_resolve_allow in Hsf; simpl in Hsf.
  destruct a as [al|]; [|contradiction].
  assert (Hcap : forall cap v, In sf (spec_allow_flags cap v) ->
                  exists c s, sf = Scoped c s \/ sf = AllowAll c).
  { intros cap [[scopes|[|]]|]; simpl; try tauto.
    - intros Hi; apply in_map_iff in Hi; destruct Hi as [s [<- _]]; eauto.
    - intros [<-|[]]; exists cap, ""; auto. }
  repeat (apply in_app_or in Hsf; destruct Hsf as [Hsf|Hsf]);
    apply Hcap in Hsf; destruct Hsf as [c [s [-> | ->]]]; apply prefix_app.
Qed.

(** * Further properties of the code *)

(** Case analysis on the event name compared by a chain of [String.eqb]. *)
Ltac case_event ev tac :=
  repeat match goal with
         | |- context [String.eqb ev ?s] =>
             let E := fresh "E" in
             destruct (String.eqb ev s) eqn:E;
             [apply String.eqb_eq in E; subst; tac|]
         end.

(** ** [generateHooksConfig] *)

(** X1: the configuration generated by [generateHooksConfig] has an entry
    for exactly the events [executeHooks] validates, and that entry runs
    [claude-tools run hooks.ts <event>] with the empty matcher. *)
Theorem generateHooksConfig_covers_events m eventType :
  exists entries,
    generateHooksConfig m = JObj [("hooks", JObj entries)] /\
    lookup eventType entries =
      match payload_schema eventType with
      | Some _ => Some (generated_entry eventType)
      | None => None
      end.
Proof.
  eexists; split; [reflexivity|].
  unfold payload_schema; cbn [map generated_events lookup].
  case_event eventType reflexivity.
  reflexivity.
Qed.

(** ** The hooks runner *)

Lemma plugin_function_on eventType p h :
  handler_for eventType p = Some h ->
  plugin_function p ("on" ++ eventType) = Some h.
Proof.
  unfold handler_for, plugin_function; simpl.
  case_event eventType ltac:(simpl; auto; intro H; discriminate H).
  auto.
Qed.

(** X2: the runner calls the event's handler on the payload as parsed,
    without validating it, and prints a truthy return unchecked; for the
    same plugin and a payload its schema rejects, [executeHooks] calls no
    handler and returns the ["Invalid payload"] response. *)
Theorem runner_skips_validation eventType payload p h v e :
  validate_payload eventType payload = RErr e ->
  handler_for eventType p = Some h ->
  h payload = Ok v ->
  truthy v = true ->
  runner_result (ExportPlugin p) eventType payload = v /\
  executeHooks eventType payload [p] =
    ([continue_with ("Invalid payload: " ++ e)], []).
Proof.
  intros Hv Hh Hr Ht; split.
  - unfold runner_result; cbn [export_function].
    rewrite (plugin_function_on _ _ _ Hh), Hr, Ht; reflexivity.
  - unfold executeHooks; rewrite Hv; reflexivity.
Qed.

Lemma runner_skips_validation_witness :
  validate_payload "PreToolUse" sample_missing_tool_name = RErr "Required: tool_name" /\
  runner_result (ExportPlugin (pre_tool_use_plugin "A" (Some (fun _ => Ok (JStr "ok")))))
    "PreToolUse" sample_missing_tool_name = JStr "ok" /\
  executeHooks "PreToolUse" sample_missing_tool_name
    [pre_tool_use_plugin "A" (Some (fun _ => Ok (JStr "ok")))] =
    ([continue_with ("Invalid payload: " ++ "Required: tool_name")], []).
Proof.
  assert (Hv : validate_payload "PreToolUse" sample_missing_tool_name
               = RErr "Required: tool_name") by reflexivity.
  split; [exact Hv|].
  apply (runner_skips_validation _ _ _ (fun _ => Ok (JStr "ok")) _ _ Hv);
    reflexivity.
Defined.

(** X3: run through the runner with the event name ["Load"] or ["Unload"],
    a plugin's [onLoad] or [onUnload] is called as an event handler: the
    output is [{ action: "continue" }], or the ["Hook execution error"]
    response if it throws; [executeHooks] rejects these event names. *)
Theorem runner_calls_lifecycle eventType p o payload :
  (eventType = "Load" /\ onLoad p = Some o \/
   eventType = "Unload" /\ onUnload p = Some o) ->
  runner_result (ExportPlugin p) eventType payload =
    match o with
    | Ok _ => JObj [("action", JStr "continue")]
    | Throw e => continue_with ("Hook execution error: " ++ e)
    end /\
  executeHooks eventType payload [p] =
    ([continue_with ("Invalid payload: Unknown event type: " ++ eventType)], []).
Proof.
  intros [[-> Ho] | [-> Ho]]; (split; [|reflexivity]);
    unfold runner_result; cbn [export_function]; unfold plugin_function; simpl;
    rewrite Ho; destruct o; reflexivity.
Qed.

Lemma runner_calls_lifecycle_witness :
  runner_result (ExportPlugin failing_load_plugin) "Load" sample_pre_tool_use =
    continue_with ("Hook execution error: " ++ "no db").
Proof.
  refine (proj1 (runner_calls_lifecycle "Load" failing_load_plugin (Throw "no db")
                   sample_pre_tool_use _)).
  left; split; reflexivity.
Defined.

(** X4: the runner reports ["No handler found for event type: <event>"] for
    an event name that selects no handler of the plugin, other than
    ["Load"] and ["Unload"]. *)
Theorem runner_no_handler eventType p payload :
  handler_for eventType p = None ->
  eventType <> "Load" -> eventType <> "Unload" ->
  runner_result (ExportPlugin p) eventType payload =
    continue_with ("No handler found for event type: " ++ eventType).
Proof.
  intros Hh HL HU; revert Hh; unfold runner_result; cbn [export_function].
  unfold plugin_function, handler_for; simpl.
  case_event eventType ltac:(simpl; intro Hh; first [rewrite Hh; reflexivity | congruence]).
  intros _; reflexivity.
Qed.

Lemma runner_no_handler_witness :
  runner_result (ExportPlugin empty_name_plugin) "Stop" sample_pre_tool_use =
    continue_with ("No handler found for event type: " ++ "Stop").
Proof.
  apply runner_no_handler; [reflexivity | discriminate | discriminate].
Defined.

(** X5: a hooks file whose default export is a [HooksManager], such as the
    one [hooks(...)] returns, gets ["No handler found for event type:
    <event>"] from the runner for every event name: none of the manager's
    methods is named [on...]. *)
Theorem runner_manager_export m eventType payload :
  runner_result (ExportManager m) eventType payload =
    continue_with ("No handler found for event type: " ++ eventType).
Proof. reflexivity. Qed.

(** ** [smartMergeSettings] *)

Lemma lookup_set_key k key v kvs :
  lookup k (set_key key v kvs) = if String.eqb k key then Some v else lookup k kvs.
Proof.
  induction kvs as [|[k1 x] rest IH]; simpl.
  - reflexivity.
  - destruct (String.eqb key k1) eqn:E; simpl.
    + apply String.eqb_eq in E; subst; destruct (String.eqb k k1); reflexivity.
    + rewrite IH; destruct (String.eqb k key) eqn:E1; [|reflexivity].
      apply String.eqb_eq in E1; subst; rewrite E; reflexivity.
Qed.

Lemma set_key_lookup_id k v kvs : lookup k kvs = Some v -> set_key k v kvs = kvs.
Proof.
  induction kvs as [|[k0 x] rest IH]; simpl; [discriminate|].
  destruct (String.eqb k k0) eqn:E.
  - intros [= ->]; reflexivity.
  - intro H; rewrite (IH H); reflexivity.
Qed.

Lemma set_key_idem k v kvs : set_key k v (set_key k v kvs) = set_key k v kvs.
Proof. apply set_key_lookup_id; rewrite lookup_set_key, String.eqb_refl; reflexivity. Qed.

Lemma filter_res_kept f l ys :
  filter_res f l = ROk ys -> Forall (fun y => f y = ROk true) ys.
Proof.
  revert ys; induction l as [|x l IH]; simpl; intros ys H.
  - injection H as <-; constructor.
  - destruct (f x) as [b|] eqn:Ef; [|discriminate]; simpl in H.
    destruct (filter_res f l) as [zs|]; [|discriminate]; simpl in H.
    injection H as <-; destruct b; auto.
Qed.

Lemma filter_res_all f l b :
  Forall (fun x => f x = ROk b) l ->
  filter_res f l = ROk (if b then l else []).
Proof.
  induction 1 as [|x l Hx _ IH]; simpl; [destruct b; reflexivity|].
  rewrite Hx; simpl; rewrite IH; simpl; destruct b; reflexivity.
Qed.

Lemma filter_res_app f l1 l2 ys1 ys2 :
  filter_res f l1 = ROk ys1 -> filter_res f l2 = ROk ys2 ->
  filter_res f (l1 ++ l2) = ROk (ys1 ++ ys2)%list.
Proof.
  revert ys1; induction l1 as [|x l IH]; simpl; intros ys1 H1 H2.
  - injection H1 as <-; exact H2.
  - destruct (f x) as [b|]; [|discriminate]; simpl in *.
    destruct (filter_res f l) as [zs|]; [|discriminate]; simpl in H1.
    rewrite (IH zs eq_refl H2); simpl.
    injection H1 as <-; destruct b; reflexivity.
Qed.

Lemma preserved_hooks_lookup hk1 hk2 k :
  lookup k hk1 = lookup k hk2 ->
  preserved_hooks (JObj hk1) k = preserved_hooks (JObj hk2) k.
Proof. intro H; unfold preserved_hooks; simpl; rewrite H; reflexivity. Qed.

(** The merge loop on an object: keys outside the new settings are left
    alone; each new key gets the preserved hooks followed by the new ones. *)
Lemma merge_loop_obj entries :
  forall hk r,
  NoDup (map fst entries) ->
  merge_loop (JObj hk) entries = ROk r ->
  exists hk',
    r = JObj hk' /\
    (forall k, ~ In k (map fst entries) -> lookup k hk' = lookup k hk) /\
    (forall k l, In (k, l) entries ->
       exists p, preserved_hooks (JObj hk) k = ROk p /\
                 lookup k hk' = Some (JArr (p ++ l))).
Proof.
  induction entries as [|[k l] rest IH]; simpl; intros hk r Hnd H.
  - injection H as <-; exists hk; repeat split; intros; contradiction.
  - inversion Hnd as [|? ? Hk Hnd']; subst.
    destruct (preserved_hooks (JObj hk) k) as [p|] eqn:Ep; [|discriminate].
    simpl in H.
    destruct (IH _ _ Hnd' H) as (hk' & -> & Hout & Hin).
    exists hk'; split; [reflexivity|split].
    + intros k2 Hk2; rewrite Hout by tauto.
      rewrite lookup_set_key; destruct (String.eqb k2 k) eqn:E; [|reflexivity].
      apply String.eqb_eq in E; subst; tauto.
    + intros k2 l2 [[= <- <-] | Hin2].
      * exists p; split; [exact Ep|].
        rewrite Hout by exact Hk; rewrite lookup_set_key, String.eqb_refl; reflexivity.
      * destruct (Hin _ _ Hin2) as (p2 & Ep2 & Hl2).
        exists p2; split; [|exact Hl2].
        rewrite <- Ep2; apply preserved_hooks_lookup.
        rewrite lookup_set_key; destruct (String.eqb k2 k) eqn:E; [|reflexivity].
        apply String.eqb_eq in E; subst.
        exfalso; apply Hk; apply (in_map fst) in Hin2; exact Hin2.
Qed.

(** The merge loop on any other value leaves it as it is (an array), or
    succeeds only when there is nothing to merge. *)
Lemma merge_loop_not_obj h entries r :
  (forall hk, h <> JObj hk) -> merge_loop h entries = ROk r -> r = h.
Proof.
  intro Hh; revert h Hh; induction entries as [|[k l] rest IH]; simpl; intros h Hh H.
  - injection H as <-; reflexivity.
  - destruct h as [| |b|z|s|xs|hk]; simpl in H; try discriminate;
      try (exfalso; exact (Hh _ eq_refl)).
    exact (IH _ Hh H).
Qed.

Lemma lookup_settings_entries newHooks k l :
  NoDup (map fst newHooks) -> In (k, l) newHooks ->
  lookup k (map (fun '(k0, l0) => (k0, JArr l0)) newHooks) = Some (JArr l).
Proof.
  induction newHooks as [|[k0 l0] rest IH]; simpl; [contradiction|].
  intros Hnd [[= -> ->] | Hin]; inversion Hnd as [|? ? Hk Hnd']; subst.
  - rewrite String.eqb_refl; reflexivity.
  - destruct (String.eqb k k0) eqn:E.
    + apply String.eqb_eq in E; subst.
      exfalso; apply Hk; apply (in_map fst) in Hin; exact Hin.
    + exact (IH Hnd' Hin).
Qed.

Lemma preserved_hooks_kept h k p :
  preserved_hooks h k = ROk p -> Forall (fun x => keep_hook x = ROk true) p.
Proof.
  unfold preserved_hooks; destruct (get_prop h k) as [eh|]; simpl; [|discriminate].
  destruct (if truthy eh then eh else JArr []); try discriminate.
  apply filter_res_kept.
Qed.

(** A second merge finds, under each new key, the hooks it preserved the
    first time followed by the new ones, which it drops and adds again. *)
Lemma merge_loop_fixed newHooks hk :
  Forall (fun e => Forall (fun x => keep_hook x = ROk false) (snd e)) newHooks ->
  (forall k l, In (k, l) newHooks ->
     exists p, lookup k hk = Some (JArr (p ++ l)) /\
               Forall (fun x => keep_hook x = ROk true) p) ->
  merge_loop (JObj hk) newHooks = ROk (JObj hk).
Proof.
  induction newHooks as [|[k l] rest IH]; simpl; intros Hdrop Hin; [reflexivity|].
  inversion Hdrop as [|? ? Hl Hrest]; subst; simpl in Hl.
  destruct (Hin k l (or_introl eq_refl)) as (p & Hk & Hp).
  unfold preserved_hooks; simpl; rewrite Hk; simpl.
  rewrite (filter_res_app _ _ _ _ _ (filter_res_all _ _ _ Hp) (filter_res_all _ _ _ Hl)).
  simpl; rewrite app_nil_r, (set_key_lookup_id _ _ _ Hk).
  apply IH; [exact Hrest|]; intros; apply Hin; right; assumption.
Qed.

(** X6: when the existing settings object has no truthy [hooks] key (none,
    [null], [false], [0] or [""]), [smartMergeSettings] returns the new
    settings alone: every other existing setting is dropped. *)
Theorem smartMerge_drops_settings_without_hooks kvs newHooks :
  (forall v, lookup "hooks" kvs = Some v -> truthy v = false) ->
  smartMergeSettings (JObj kvs) newHooks =
    ROk (JObj [("hooks", JObj (map (fun '(k, l) => (k, JArr l)) newHooks))]).
Proof.
  intro H; unfold smartMergeSettings; simpl.
  destruct (lookup "hooks" kvs) as [v|] eqn:E; simpl.
  - rewrite (H v eq_refl); reflexivity.
  - reflexivity.
Qed.

Lemma smartMerge_drops_settings_without_hooks_witness :
  smartMergeSettings (JObj [("model", JStr "opus"); ("hooks", JNull)])
    (completeSettings "/opt/bin/claude-hooks" "hooks.ts") =
    ROk (settings_of (completeSettings "/opt/bin/claude-hooks" "hooks.ts")).
Proof.
  apply smartMerge_drops_settings_without_hooks.
  intros v Hv; simpl in Hv; injection Hv as <-; reflexivity.
Defined.

(** X7: when the existing [hooks] is an object, [smartMergeSettings] keeps
    every other top-level setting and every event not in the new settings;
    each new event gets the existing entries that the filter keeps (none of
    them a claude-hooks command), in order, followed by the new entries. *)
Theorem smartMerge_preserves kvs hk newHooks r :
  NoDup (map fst newHooks) ->
  lookup "hooks" kvs = Some (JObj hk) ->
  smartMergeSettings (JObj kvs) newHooks = ROk r ->
  exists kvs' hk',
    r = JObj kvs' /\
    (forall k, k <> "hooks" -> lookup k kvs' = lookup k kvs) /\
    lookup "hooks" kvs' = Some (JObj hk') /\
    (forall k, ~ In k (map fst newHooks) -> lookup k hk' = lookup k hk) /\
    (forall k l, In (k, l) newHooks ->
       exists p, preserved_hooks (JObj hk) k = ROk p /\
                 Forall (fun x => keep_hook x = ROk true) p /\
                 lookup k hk' = Some (JArr (p ++ l))).
Proof.
  intros Hnd Hh H; unfold smartMergeSettings in H; simpl in H; rewrite Hh in H.
  simpl in H.
  destruct (merge_loop (JObj hk) newHooks) as [h'|] eqn:Em; [|discriminate].
  simpl in H; injection H as <-.
  destruct (merge_loop_obj _ _ _ Hnd Em) as (hk' & -> & Hout & Hin).
  exists (set_key "hooks" (JObj hk') kvs), hk'; repeat split.
  - intros k Hk; rewrite lookup_set_key.
    destruct (String.eqb k "hooks") eqn:E; [apply String.eqb_eq in E; congruence|].
    reflexivity.
  - rewrite lookup_set_key; reflexivity.
  - exact Hout.
  - intros k l Hkl; destruct (Hin k l Hkl) as (p & Hp & Hl).
    exists p; repeat split; [exact Hp| exact (preserved_hooks_kept _ _ _ Hp) | exact Hl].
Qed.

Lemma smartMerge_preserves_witness :
  exists kvs',
    smartMergeSettings (JObj [("model", JStr "opus"); ("hooks", JObj [])])
      [("Stop", [JObj [("type", JStr "command"); ("command", JStr "say done")]])]
    = ROk (JObj kvs') /\ lookup "model" kvs' = Some (JStr "opus").
Proof.
  destruct (smartMerge_preserves
              [("model", JStr "opus"); ("hooks", JObj [])]
              [] [("Stop", [JObj [("type", JStr "command"); ("command", JStr "say done")]])]
              (JObj [("model", JStr "opus");
                     ("hooks", JObj [("Stop", JArr [JObj [("type", JStr "command"); ("command", JStr "say done")]])])]))
    as (kvs' & hk' & Hr & Hkeep & _).
  - repeat constructor; simpl; tauto.
  - reflexivity.
  - reflexivity.
  - exists kvs'; split.
    + rewrite <- Hr; reflexivity.
    + rewrite Hkeep by discriminate; reflexivity.
Defined.

(** X8: when the existing [hooks] is an array, [smartMergeSettings] returns
    the existing settings unchanged: the new hooks are set as non-index
    properties of the array, which [JSON.stringify] does not write. *)
Theorem smartMerge_array_hooks kvs l newHooks :
  lookup "hooks" kvs = Some (JArr l) ->
  smartMergeSettings (JObj kvs) newHooks = ROk (JObj kvs).
Proof.
  intro Hh; unfold smartMergeSettings; simpl; rewrite Hh; simpl.
  assert (Hm : merge_loop (JArr l) newHooks = ROk (JArr l)).
  { induction newHooks as [|[k nh] rest IH]; [reflexivity|exact IH]. }
  rewrite Hm; simpl; rewrite (set_key_lookup_id _ _ _ Hh); reflexivity.
Qed.

Lemma smartMerge_array_hooks_witness :
  smartMergeSettings (JObj [("hooks", JArr [])])
    (completeSettings "/opt/bin/claude-hooks" "hooks.ts") =
    ROk (JObj [("hooks", JArr [])]).
Proof. apply smartMerge_array_hooks with (l := []); reflexivity. Defined.

Lemma smartMerge_fixpoint existing newHooks r :
  NoDup (map fst newHooks) ->
  Forall (fun e => Forall (fun x => keep_hook x = ROk false) (snd e)) newHooks ->
  smartMergeSettings existing newHooks = ROk r ->
  smartMergeSettings r newHooks = ROk r.
Proof.
  intros Hnd Hdrop H.
  assert (Hfresh : smartMergeSettings (settings_of newHooks) newHooks
                   = ROk (settings_of newHooks)).
  { unfold smartMergeSettings, settings_of; simpl.
    rewrite (merge_loop_fixed _ _ Hdrop); [reflexivity|].
    intros k l Hkl; exists []; split; [|constructor].
    exact (lookup_settings_entries _ _ _ Hnd Hkl). }
  unfold smartMergeSettings in H.
  destruct (get_prop existing "hooks") as [eh|] eqn:Eh; simpl in H; [|discriminate].
  destruct (truthy eh) eqn:Et; simpl in H; [|injection H as <-; exact Hfresh].
  destruct (merge_loop eh newHooks) as [h'|] eqn:Em; simpl in H; [|discriminate].
  injection H as <-.
  assert (Hh' : truthy h' = true /\ merge_loop h' newHooks = ROk h').
  { pose proof (merge_loop_not_obj eh newHooks h') as Hnot.
    destruct eh as [| |b|z|s|xs|hk];
      try (specialize (Hnot ltac:(intros ? ?; discriminate) Em); subst h';
           split; assumption).
    destruct (merge_loop_obj _ _ _ Hnd Em) as (hk' & -> & _ & Hin).
    split; [reflexivity|].
    apply (merge_loop_fixed _ _ Hdrop).
    intros k l Hkl; destruct (Hin k l Hkl) as (p & Hp & Hl).
    exists p; split; [exact Hl|exact (preserved_hooks_kept _ _ _ Hp)]. }
  destruct Hh' as [Ht' Hm'].
  unfold smartMergeSettings; simpl; rewrite lookup_set_key, String.eqb_refl; simpl.
  rewrite Ht', Hm'; simpl; rewrite set_key_idem; reflexivity.
Qed.

(** X9: [smartMergeSettings] is idempotent when every new entry is one its
    filter removes (and the new event names are distinct): merging the
    same new settings into its result gives that result again. *)
Theorem smartMerge_idempotent existing newHooks r :
  NoDup (map fst newHooks) ->
  Forall (fun e => Forall (fun x => keep_hook x = ROk false) (snd e)) newHooks ->
  smartMergeSettings existing newHooks = ROk r ->
  smartMergeSettings r newHooks = ROk r.
Proof. exact (smartMerge_fixpoint existing newHooks r). Qed.

Lemma includes_eq needle hay :
  includes needle hay =
    String.prefix needle hay
    || match hay with EmptyString => false | String _ rest => includes needle rest end.
Proof. destruct hay; reflexivity. Qed.

Lemma prefix_app_r p s t : String.prefix p s = true -> String.prefix p (s ++ t) = true.
Proof.
  revert p; induction s as [|b s IH]; intros p H; destruct p as [|a p]; simpl in *;
    try reflexivity; try discriminate.
  - destruct t; reflexivity.
  - destruct (Ascii.ascii_dec a b); [exact (IH _ H)|discriminate].
Qed.

Lemma includes_app_r n s t : includes n s = true -> includes n (s ++ t) = true.
Proof.
  induction s as [|c s IH]; intro H; rewrite includes_eq in H.
  - simpl in H; destruct n; [|discriminate].
    destruct t; reflexivity.
  - apply Bool.orb_true_iff in H as [H|H].
    + rewrite includes_eq, (prefix_app_r _ _ t H); reflexivity.
    + rewrite includes_eq; change (String c s ++ t) with (String c (s ++ t)).
      destruct (String.prefix n (String c (s ++ t))); [reflexivity|exact (IH H)].
Qed.

Lemma completeSettings_dropped claudeHooksPath hooksFile :
  String.prefix "claude-hooks" claudeHooksPath
    || includes "/claude-hooks" claudeHooksPath = true ->
  Forall (fun e => Forall (fun x => keep_hook x = ROk false) (snd e))
         (completeSettings claudeHooksPath hooksFile).
Proof.
  intro Hp.
  assert (Hcmd : forall t, String.prefix "claude-hooks" (claudeHooksPath ++ t)
                           || includes "/claude-hooks" (claudeHooksPath ++ t) = true).
  { intro t; apply Bool.orb_true_iff in Hp as [Hp|Hp].
    - rewrite (prefix_app_r _ _ _ Hp); reflexivity.
    - rewrite (includes_app_r _ _ _ Hp), Bool.orb_true_r; reflexivity. }
  unfold completeSettings, settings_command; simpl.
  repeat constructor; unfold keep_hook, is_claude_hooks_command; simpl;
    rewrite Hcmd; reflexivity.
Qed.

(** X10: running [initHooks] again on the settings it wrote leaves them
    unchanged, as long as the [claude-hooks] path starts with
    ["claude-hooks"] or contains ["/claude-hooks"]: the entries it wrote are
    removed and written again in the same place. *)
Theorem initHooks_merge_idempotent claudeHooksPath hooksFile existing r :
  String.prefix "claude-hooks" claudeHooksPath
    || includes "/claude-hooks" claudeHooksPath = true ->
  smartMergeSettings existing (completeSettings claudeHooksPath hooksFile) = ROk r ->
  smartMergeSettings r (completeSettings claudeHooksPath hooksFile) = ROk r.
Proof.
  intros Hp H; apply (smartMerge_fixpoint existing); [|exact (completeSettings_dropped _ _ Hp)|exact H].
  unfold completeSettings; simpl.
  repeat constructor; simpl; intuition discriminate.
Qed.

Lemma initHooks_merge_idempotent_witness :
  smartMergeSettings
    (settings_of (completeSettings "/opt/bin/claude-hooks" "hooks.ts"))
    (completeSettings "/opt/bin/claude-hooks" "hooks.ts")
  = ROk (settings_of (completeSettings "/opt/bin/claude-hooks" "hooks.ts")).
Proof.
  apply (initHooks_merge_idempotent _ _ (JObj [])); reflexivity.
Defined.

Lemma smartMerge_idempotent_witness :
  let existing :=
    JObj [("hooks", JObj [("Stop", JArr [JObj [("type", JStr "command"); ("command", JStr "say done")];
                                         JObj [("type", JStr "command"); ("command", JStr "claude-hooks run x")]])])] in
  let newHooks :=
    [("Stop", [JObj [("hooks", JArr [JObj [("type", JStr "command"); ("command", JStr "claude-hooks run y")]])]])] in
  let r :=
    JObj [("hooks", JObj [("Stop", JArr [JObj [("type", JStr "command"); ("command", JStr "say done")];
                                         JObj [("hooks", JArr [JObj [("type", JStr "command"); ("command", JStr "claude-hooks run y")]])]])])] in
  smartMergeSettings existing newHooks = ROk r /\ smartMergeSettings r newHooks = ROk r.
Proof.
  intros existing newHooks r.
  assert (H : smartMergeSettings existing newHooks = ROk r) by reflexivity.
  split; [exact H|].
  apply (smartMerge_idempotent existing); [| |exact H].
  - repeat constructor; simpl; tauto.
  - repeat constructor.
Defined.

(** ** What [executeHooks] returns and passes on *)

Lemma parse_shape_required p k s rest kvs out e :
  p s JUndef = RErr e ->
  parse_shape p ((k, s) :: rest) kvs = ROk out ->
  exists x y ys, lookup k kvs = Some x /\ p s x = ROk y /\ out = (k, y) :: ys.
Proof.
  intros He H; simpl in H.
  destruct (lookup k kvs) as [x|]; [|rewrite He in H; discriminate].
  destruct (p s x) as [y|] eqn:Ey; [|discriminate].
  destruct (parse_shape p rest kvs) as [ys|]; [|discriminate].
  injection H as <-; exists x, y, ys; auto.
Qed.

Lemma parse_enum l x y :
  parse (SEnum l) x = ROk y -> exists a, x = JStr a /\ y = x /\ In a l.
Proof.
  destruct x; simpl; try discriminate.
  destruct (existsb (String.eqb s) l) eqn:Eb; [|discriminate].
  intros [= <-]; apply existsb_exists in Eb as (a & Ha & Ea).
  apply String.eqb_eq in Ea; subst; eauto.
Qed.

(** X11: every response [executeHooks] returns is an object whose
    [action] is ["continue"], ["block"] or ["modify"] and whose keys are
    among [action], [message], [modified_input] and [context]: keys a
    plugin adds to its response are stripped. *)
Theorem executeHooks_response_shape eventType payload ps r :
  In r (fst (executeHooks eventType payload ps)) ->
  exists kvs a,
    r = JObj kvs /\ lookup "action" kvs = Some (JStr a) /\
    In a ["continue"; "block"; "modify"] /\
    (forall k, In k (map fst kvs) ->
               In k ["action"; "message"; "modified_input"; "context"]).
Proof.
  intro Hin; pose proof (executeHooks_valid _ _ _ _ Hin) as H.
  destruct r as [| | | | | |kvs]; try discriminate H.
  unfold HookResponseSchema in H; cbn [parse] in H.
  destruct (parse_shape parse _ kvs) as [out|] eqn:Eout; [|discriminate H].
  injection H as ->.
  destruct (parse_shape_required parse "action" (SEnum ["continue"; "block"; "modify"])
                        _ _ _ "Expected string" eq_refl Eout) as (x & y & ys & Hx & Hy & _).
  destruct (parse_enum _ _ _ Hy) as (a & -> & _ & Ha).
  exists kvs, a; repeat split; [exact Hx|exact Ha|].
  exact (parse_shape_keys _ _ _ _ Eout).
Qed.

Lemma executeHooks_response_shape_witness :
  exists kvs a,
    JObj [("action", JStr "block"); ("message", JStr "nope")] = JObj kvs /\
    lookup "action" kvs = Some (JStr a) /\ In a ["continue"; "block"; "modify"].
Proof.
  destruct (executeHooks_response_shape "PreToolUse" sample_pre_tool_use
              [pre_tool_use_plugin "A"
                 (Some (fun _ => Ok (JObj [("action", JStr "block"); ("message", JStr "nope");
                                           ("extra", JNum 1)])))]
              (JObj [("action", JStr "block"); ("message", JStr "nope")]))
    as (kvs & a & Hr & Ha & Hin & _).
  - left; reflexivity.
  - exists kvs, a; auto.
Defined.

Lemma payload_schema_object eventType s :
  payload_schema eventType = Some s -> exists shape, s = SObject shape.
Proof.
  unfold payload_schema.
  case_event eventType ltac:(intros [= <-]; eexists; reflexivity).
  discriminate.
Qed.

(** X12: every handler [executeHooks] calls is called with the event it was
    given and with an object that passes the event's schema and has only
    keys of that schema: fields the schema does not name are stripped. *)
Theorem executeHooks_payload_stripped eventType payload ps n e x :
  In (CInvoke n e x) (snd (executeHooks eventType payload ps)) ->
  exists shape kvs,
    e = eventType /\
    payload_schema eventType = Some (SObject shape) /\
    parse (SObject shape) payload = ROk x /\
    x = JObj kvs /\
    (forall k, In k (map fst kvs) -> In k (map fst shape)).
Proof.
  unfold executeHooks; destruct (validate_payload eventType payload) as [vp|m] eqn:Ev;
    [|simpl; tauto].
  intro H; destruct (for_plugins_calls _ _ _ _ _ _ _ _ H) as [[]|[-> ->]].
  unfold validate_payload in Ev.
  destruct (payload_schema eventType) as [s|] eqn:Es; [|discriminate].
  destruct (payload_schema_object _ _ Es) as [shape ->].
  pose proof Ev as Ev'; cbn [parse] in Ev'.
  destruct payload as [| | | | | |kvs0]; try discriminate Ev'.
  destruct (parse_shape parse shape kvs0) as [out|] eqn:Eout; [|discriminate].
  injection Ev' as <-.
  exists shape, out; repeat split; [exact Ev|].
  exact (parse_shape_keys _ _ _ _ Eout).
Qed.

Lemma executeHooks_payload_stripped_witness :
  exists shape kvs,
    parse (SObject shape)
      (JObj [("tool_name", JStr "Write"); ("tool_input", JObj []);
             ("context", sample_context); ("secret", JStr "x")]) = ROk (JObj kvs) /\
    ~ In "secret" (map fst kvs).
Proof.
  set (p := JObj [("tool_name", JStr "Write"); ("tool_input", JObj []);
                  ("context", sample_context); ("secret", JStr "x")]).
  destruct (executeHooks_payload_stripped "PreToolUse" p [continuing_plugin] "B" "PreToolUse"
              (JObj [("tool_name", JStr "Write"); ("tool_input", JObj []);
                     ("context", sample_context)]))
    as (shape & kvs & _ & Hs & Hp & Hx & Hk).
  - vm_compute; tauto.
  - exists shape, kvs; split; [rewrite <- Hx; exact Hp|].
    intro Hin; specialize (Hk _ Hin).
    injection Hs as <-; simpl in Hk; intuition discriminate.
Defined.

(** ** Scope selection of [initHooks] *)

(** X13: a scope that lowercases to ["user"] (["USER"], ["User"], ...)
    fails with ["HOME environment variable not found"] when [HOME] is unset
    or empty. *)
Theorem initHooks_user_needs_home s home :
  toLowerCase s = "user" -> home = None \/ home = Some "" ->
  initHooks_scope (Some s) home = RErr "HOME environment variable not found".
Proof.
  intros Hs Hh; unfold initHooks_scope.
  destruct (String.eqb s "") eqn:E0.
  - apply String.eqb_eq in E0; subst; discriminate Hs.
  - rewrite Hs; simpl; destruct Hh as [-> | ->]; reflexivity.
Qed.

Lemma initHooks_user_needs_home_witness :
  initHooks_scope (Some "User") None = RErr "HOME environment variable not found".
Proof. apply initHooks_user_needs_home; [reflexivity | left; reflexivity]. Defined.

(** X14: any other scope (including the default ["project"] for a missing
    or empty scope) never reads [HOME]: the outcome is the same whatever
    [HOME] is. *)
Theorem initHooks_scope_ignores_home s home1 home2 :
  toLowerCase s <> "user" ->
  initHooks_scope (Some s) home1 = initHooks_scope (Some s) home2.
Proof.
  intro Hs; unfold initHooks_scope.
  destruct (String.eqb s "") eqn:E0; [reflexivity|].
  destruct (String.eqb (toLowerCase s) "user") eqn:Eu; [|reflexivity].
  apply String.eqb_eq in Eu; contradiction.
Qed.

Lemma initHooks_scope_ignores_home_witness :
  initHooks_scope (Some "Local") None = initHooks_scope (Some "Local") (Some "/home/u").
Proof. apply initHooks_scope_ignores_home; discriminate. Defined.
